(** * WBTR: webtorrent-runner.js

    A shallow embedding of [src/webtorrent-runner.js]: the range-serving
    HTTP request handler, the once-only stream error logger, the video
    member selection of the [client.add] callback, and the [shutdown]
    routine with the event handlers that call it.  Line numbers are
    those of the source file.

    Conventions.
    - A JavaScript string is a [string]; an HTTP header value reaches the
      handler decoded as latin-1, one character per byte, which is exactly
      what [ascii] holds.
    - A JavaScript number is an IEEE double.  The numbers the modelled
      code computes are integers, NaN and the infinities, so a number is
      [NaN], [Infinity] or [Num z] with [z] an integer that a double
      holds; what the program rounds (the result of [parseInt], of [-]
      and [+]) is rounded here by [round53], and [toString] prints
      exponent notation from 10^21 on.
    - [undefined] is [None].
    - The program is event driven.  Its module-level variables, the
      download directory and everything it does to the outside (console
      lines, calls on the server, the torrent client, timers and the
      process) are held in a [world]; each callback is a function on
      worlds, and [dispatch] is one turn of the event loop.
    - Command line parsing (lines 11-20) and the text of the progress
      line (lines 111-114, floating point formatting) are left out. *)

From Stdlib Require Import ZArith List String Ascii Bool Lia.
Import ListNotations.

Local Open Scope string_scope.
Local Open Scope Z_scope.

(* ================================================================== *)
(** ** JavaScript strings *)

Module JsString.

(** [s.startsWith(p)] *)
Fixpoint startsWith (p s : string) : bool :=
  match p, s with
  | EmptyString, _ => true
  | String a p', String b s' => Ascii.eqb a b && startsWith p' s'
  | String _ _, EmptyString => false
  end.

Fixpoint drop (n : nat) (s : string) : string :=
  match n, s with
  | O, _ => s
  | S n', String _ s' => drop n' s'
  | S _, EmptyString => EmptyString
  end.

(** [s.replace(/pat/, rep)] for a pattern made of literal characters and
    no [g] flag: the leftmost occurrence is replaced, the rest is kept. *)
Fixpoint replace (pat rep s : string) : string :=
  if startsWith pat s then rep ++ drop (String.length pat) s
  else match s with
       | EmptyString => EmptyString
       | String c s' => String c (replace pat rep s')
       end.

(** [s.split(sep)] for a one-character separator: never the empty list. *)
Fixpoint split (sep : ascii) (s : string) : list string :=
  match s with
  | EmptyString => [EmptyString]
  | String c s' =>
      if Ascii.eqb c sep then EmptyString :: split sep s'
      else match split sep s' with
           | h :: t => String c h :: t
           | [] => [String c EmptyString]
           end
  end.

(** [s.includes(needle)] *)
Fixpoint includes (needle s : string) : bool :=
  startsWith needle s ||
  match s with
  | EmptyString => false
  | String _ s' => includes needle s'
  end.

(** ASCII case folding, the canonicalisation the [i] flag of a
    non-unicode regular expression applies to ASCII letters. *)
Definition lower (c : ascii) : ascii :=
  let n := nat_of_ascii c in
  if (Nat.leb 65 n && Nat.leb n 90)%bool then ascii_of_nat (n + 32) else c.

Fixpoint lowerCase (s : string) : string :=
  match s with
  | EmptyString => EmptyString
  | String c s' => String (lower c) (lowerCase s')
  end.

(** Some suffix of [s] equals [suf] up to ASCII case: a match of the
    literal [suf] anchored by [$] under the [i] flag. *)
Fixpoint endsWith_ci (suf s : string) : bool :=
  String.eqb (lowerCase s) suf ||
  match s with
  | EmptyString => false
  | String _ s' => endsWith_ci suf s'
  end.

(** Truthiness of a possibly undefined string. *)
Definition truthy (v : option string) : bool :=
  match v with
  | None => false
  | Some EmptyString => false
  | Some (String _ _) => true
  end.

(** Text with no [b] in it has no [bytes=] to remove. *)
Fixpoint noB (s : string) : bool :=
  match s with
  | EmptyString => true
  | String c s' => negb (Ascii.eqb c "b") && noB s'
  end.

End JsString.

(* ================================================================== *)
(** ** JavaScript numbers *)

Module JsNumber.

Inductive number : Type :=
| NaN
| Num (z : Z)
| Infinity (negative : bool).

(** 2^53: below it every integer is a double. *)
Definition twoTo53 : Z := 9007199254740992.

(** The double nearest to the integer [z], ties to the even significand;
    an infinity from 2^1024 on. *)
Definition round53 (z : Z) : number :=
  let a := Z.abs z in
  if a <? twoTo53 then Num z
  else
    let e := Z.log2 a - 52 in
    let q := Z.shiftr a e in
    let r := a - Z.shiftl q e in
    let half := Z.shiftl 1 (e - 1) in
    let q' := if r <? half then q
              else if half <? r then q + 1
              else if Z.even q then q else q + 1 in
    let m := Z.shiftl q' e in
    if Z.shiftl 1 1024 <=? m then Infinity (z <? 0) else Num (Z.sgn z * m).

Definition neg (a : number) : number :=
  match a with
  | NaN => NaN
  | Num z => Num (- z)
  | Infinity s => Infinity (negb s)
  end.

Definition add (a b : number) : number :=
  match a, b with
  | NaN, _ | _, NaN => NaN
  | Num x, Num y => round53 (x + y)
  | Infinity s, Num _ | Num _, Infinity s => Infinity s
  | Infinity s, Infinity t => if Bool.eqb s t then Infinity s else NaN
  end.

Definition sub (a b : number) : number := add a (neg b).

Definition eqb (a b : number) : bool :=
  match a, b with
  | Num x, Num y => x =? y
  | Infinity s, Infinity t => Bool.eqb s t
  | _, _ => false
  end.

(** White space stripped by [parseInt]: TAB, LF, VT, FF, CR, SP and, in
    the latin-1 range, NBSP. *)
Definition isWhiteSpace (c : ascii) : bool :=
  let n := nat_of_ascii c in
  (Nat.leb 9 n && Nat.leb n 13) || Nat.eqb n 32 || Nat.eqb n 160.

Fixpoint trimStart (s : string) : string :=
  match s with
  | String c s' => if isWhiteSpace c then trimStart s' else s
  | EmptyString => EmptyString
  end.

Definition digitValue (c : ascii) : option Z :=
  let n := nat_of_ascii c in
  if (Nat.leb 48 n && Nat.leb n 57)%bool then Some (Z.of_nat n - 48) else None.

(** The longest prefix of decimal digits of [s], read from accumulator
    [acc]; [None] while no digit has been read. *)
Fixpoint readDigits (s : string) (acc : option Z) : option Z :=
  match s with
  | EmptyString => acc
  | String c s' =>
      match digitValue c with
      | Some d =>
          readDigits s' (Some (10 * match acc with Some a => a | None => 0 end + d))
      | None => acc
      end
  end.

(** [parseInt(s, 10)]: leading white space, an optional sign, then the
    longest run of digits; NaN when that run is empty. *)
Definition parseInt10 (s : string) : number :=
  let t := trimStart s in
  let '(sign, t') :=
    match t with
    | String "-"%char r => (-1, r)
    | String "+"%char r => (1, r)
    | _ => (1, t)
    end in
  match readDigits t' None with
  | Some v => round53 (sign * v)
  | None => NaN
  end.

(** Only decimal digits. *)
Fixpoint allDigits (s : string) : bool :=
  match s with
  | EmptyString => true
  | String c s' =>
      match digitValue c with Some _ => allDigits s' | None => false end
  end.

Definition digitChar (d : Z) : ascii := ascii_of_nat (48 + Z.to_nat d).

(** Decimal digits of a non-negative integer, most significant first. *)
Fixpoint digits (fuel : nat) (n : Z) : string :=
  match fuel with
  | O => String (digitChar (n mod 10)) EmptyString
  | S f =>
      if n <? 10 then String (digitChar n) EmptyString
      else digits f (n / 10) ++ String (digitChar (n mod 10)) EmptyString
  end.

Definition decimal (n : Z) : string := digits (Z.to_nat (Z.log2 n)) n.

(** The shortest decimal [s] of [k] digits with [s * 10^(n-k)] rounding
    to the double [z], the nearest one when there are two. *)
Definition candidate (z n k : Z) : option Z :=
  let p := 10 ^ (n - k) in
  let lo := z / p in
  let ok s := (10 ^ (k - 1) <=? s) && (s <? 10 ^ k) && eqb (round53 (s * p)) (Num z) in
  match ok lo, ok (lo + 1) with
  | true, true =>
      let dlo := z - lo * p in
      let dhi := (lo + 1) * p - z in
      if dlo <? dhi then Some lo
      else if dhi <? dlo then Some (lo + 1)
      else if Z.even lo then Some lo else Some (lo + 1)
  | true, false => Some lo
  | false, true => Some (lo + 1)
  | false, false => None
  end.

(** The digits [s] and the exponent [n] of [Number::toString], trying
    [k] digits, then [k + 1], and so on; [d] is the number of digits of
    [z]. *)
Fixpoint shortest (fuel : nat) (k z d : Z) : option (Z * Z) :=
  match fuel with
  | O => None
  | S f =>
      match candidate z d k with
      | Some s => Some (s, d)
      | None =>
          match candidate z (d + 1) k with
          | Some s => Some (s, d + 1)
          | None => shortest f (k + 1) z d
          end
      end
  end.

Fixpoint zeros (n : nat) : string :=
  match n with
  | O => EmptyString
  | S n' => String "0" (zeros n')
  end.

(** [Number::toString] on a positive integer [z] that is a double.
    Below 2^53 the shortest digits that give [z] back are those of [z]
    itself.  From there on they are searched for: up to 21 digits they
    are filled up with zeros, beyond that exponent notation is used. *)
Definition unsigned (z : Z) : string :=
  if z <? twoTo53 then decimal z
  else
    match shortest 17 1 z (Z.of_nat (String.length (decimal z))) with
    | Some (s, n) =>
        let ds := decimal s in
        if n <=? 21 then ds ++ zeros (Z.to_nat n - String.length ds)
        else
          match ds with
          | String c EmptyString => String c ("e+" ++ decimal (n - 1))
          | String c rest => String c ("." ++ rest ++ "e+" ++ decimal (n - 1))
          | EmptyString => decimal z
          end
    | None => decimal z
    end.

(** [String(x)], the conversion a template literal applies. *)
Definition toString (x : number) : string :=
  match x with
  | NaN => "NaN"
  | Infinity s => if s then "-Infinity" else "Infinity"
  | Num z => if z <? 0 then "-" ++ unsigned (- z) else unsigned z
  end.

End JsNumber.

Export JsNumber.

(* ================================================================== *)
(** ** The HTTP request handler (lines 70-99) *)

Module Http.

Record request : Type := {
  method : string;
  range : option string        (* req.headers.range *)
}.

(** A header value as the program passes it to Node. *)
Inductive hvalue : Type :=
| HStr (s : string)
| HNum (n : number).

(** Options of [video.createReadStream]. *)
Inductive readOpts : Type :=
| Whole
| Slice (start end_ : number).

(** The response object [res] as the handler leaves it. *)
Record response : Type := {
  statusCode : option Z;
  headers : list (string * hvalue);
  piped : option readOpts;     (* the read stream piped into [res] *)
  ended : bool
}.

Definition fresh : response :=
  {| statusCode := None; headers := []; piped := None; ended := false |}.

Fixpoint setKey (k : string) (v : hvalue) (hs : list (string * hvalue))
  : list (string * hvalue) :=
  match hs with
  | [] => [(k, v)]
  | (k', v') :: t =>
      if String.eqb k k' then (k, v) :: t else (k', v') :: setKey k v t
  end.

Fixpoint getHeader (k : string) (hs : list (string * hvalue)) : option hvalue :=
  match hs with
  | [] => None
  | (k', v) :: t => if String.eqb k k' then Some v else getHeader k t
  end.

Definition setHeader (k : string) (v : hvalue) (res : response) : response :=
  {| statusCode := statusCode res; headers := setKey k v (headers res);
     piped := piped res; ended := ended res |}.

Definition writeHead (code : Z) (hs : list (string * hvalue)) (res : response)
  : response :=
  {| statusCode := Some code;
     headers := fold_left (fun acc kv => setKey (fst kv) (snd kv) acc) hs (headers res);
     piped := piped res; ended := ended res |}.

Definition end_ (res : response) : response :=
  {| statusCode := statusCode res; headers := headers res;
     piped := piped res; ended := true |}.

Definition pipe (o : readOpts) (res : response) : response :=
  {| statusCode := statusCode res; headers := headers res;
     piped := Some o; ended := ended res |}.

(** The two bounds the range branch computes (lines 86-88). *)
Definition parseRange (rangeHdr : string) (size : number) : number * number :=
  let parts := JsString.split "-"%char (JsString.replace "bytes=" "" rangeHdr) in
  let startStr := nth_error parts 0 in
  let endStr := nth_error parts 1 in
  let start := match startStr with Some s => parseInt10 s | None => NaN end in
  let end_ :=
    if JsString.truthy endStr
    then match endStr with Some s => parseInt10 s | None => NaN end
    else sub size (Num 1) in
  (start, end_).

(** A member file of the torrent. *)
Record file : Type := {
  name : string;
  length : Z
}.

(** The callback given to [http.createServer]; [video] is the variable
    it closes over. *)
Definition handler (video : file) (req : request) : response :=
  let res := fresh in
  if negb (String.eqb (method req) "GET") then end_ (writeHead 405 [] res)
  else
    let size := length video in
    let res := setHeader "Accept-Ranges" (HStr "bytes") res in
    let res := setHeader "Content-Type" (HStr "video/mp4") res in
    if negb (JsString.truthy (range req)) then
      pipe Whole (writeHead 200 [("Content-Length", HNum (Num size))] res)
    else
      let rangeHdr := match range req with Some r => r | None => "" end in
      let '(start, end_) := parseRange rangeHdr (Num size) in
      let chunksize := add (sub end_ start) (Num 1) in
      let res :=
        writeHead 206
          [("Content-Range",
            HStr ("bytes " ++ toString start ++ "-" ++ toString end_
                    ++ "/" ++ toString (Num size)));
           ("Content-Length", HNum chunksize)] res in
      pipe (Slice start end_) res.

(** A GET request with the given [Range] header. *)
Definition get (r : option string) : request :=
  {| method := "GET"; range := r |}.

(** A well-formed header [bytes=<start>-<end>], the end being optional. *)
Definition rangeHeader (start : Z) (end_ : option Z) : string :=
  "bytes=" ++ decimal start ++ "-" ++
  match end_ with Some e => decimal e | None => "" end.

(** The Byte Range invariant of the data model. *)
Definition validRange (start end_ : number) (size : Z) : Prop :=
  match start, end_ with
  | Num s, Num e => 0 <= s /\ s <= e /\ e < size
  | _, _ => False
  end.

(** The response to anything but a GET. *)
Definition bare405 : response :=
  {| statusCode := Some 405; headers := []; piped := None; ended := true |}.

End Http.

(* ================================================================== *)
(** ** Globals, events and the shutdown routine *)

Module Lifecycle.

Import Http.

(** The regular expression of line 61,
    [/\.(mp4|mkv|avi|webm|m4v)$/i], tested on a member name. *)
Definition videoExtensions : list string := ["mp4"; "mkv"; "avi"; "webm"; "m4v"].

Definition isVideo (fname : string) : bool :=
  existsb (fun ext => JsString.endsWith_ci ("." ++ ext) fname) videoExtensions.

(** An entry of the download directory.  A [busy] entry makes [fs.rm]
    reject (EBUSY, EPERM and the like).  A [slow] entry is one whose
    removal takes long: it is still there when the process exits after
    another removal has failed. *)
Record entry : Type := {
  ename : string;
  busy : bool;
  slow : bool
}.

(** What [path.resolve('downloads')] names on disk: nothing, where a
    directory can be made ([Absent]) or cannot ([Blocked]: a parent that
    is read-only, say); something that is no directory; a directory. *)
Inductive dirState : Type :=
| Absent
| Blocked
| NotADirectory
| Directory (entries : list entry).

(** [fs.mkdir(dlDir, {recursive: true}).catch(() => {})], line 34: a
    failure is swallowed and leaves the disk as it was. *)
Definition mkdir (d : dirState) : dirState :=
  match d with
  | Absent => Directory []
  | other => other
  end.

Inductive timer : Type := ProgressTimer | PollTimer.

(** The lines the program prints. *)
Inductive line : Type :=
| LClientError (msg : string)
| LTorrent
| LNoVideo
| LVideo (fname : string)
| LStreamingReady
| LProgress
| LDownloadComplete
| LStreamHiccup (msg : string)
| LVlcLaunched
| LVlcExited (code : option Z)
| LBrowserLaunched
| LShuttingDown
| LServerStopped
| LClientDestroyError (msg : string)
| LClientDestroyed
| LCleaned
| LCleanupError (code : string)
| LSigint.

(** Observable side effects. *)
Inductive effect : Type :=
| Console (l : line)
| Listen
| Respond (r : response)
| SpawnVlc
| SpawnBrowser
| ClearInterval (t : timer)
| ServerClose
| ClientDestroy
| ProcessExit (code : Z)
| UncaughtException.

(** Where a call of the async function [shutdown] is suspended. *)
Inductive point : Type :=
| AwaitClose                       (* line 194 *)
| AwaitGrace                       (* line 203 *)
| AwaitReaddir                     (* line 208 *)
| AwaitRm (names : list string).   (* line 210 *)

Record frame : Type := {
  at_ : point;
  exitCode : Z
}.

(** The module-level variables (lines 25-27), the variable [video] the
    handler closes over, the download directory, the effects so far (the
    latest first), the exit status once the process is gone, and the
    suspended calls of [shutdown] (the oldest first). *)
Record world : Type := {
  video : option file;
  server : bool;
  client : bool;
  playerProc : bool;
  progressInterval : bool;
  pollInterval : bool;
  streamErrorLogged : bool;
  downloads : dirState;
  effects : list effect;
  exitStatus : option Z;
  suspended : list frame
}.

Definition emit (e : effect) (w : world) : world :=
  {| video := video w; server := server w; client := client w;
     playerProc := playerProc w; progressInterval := progressInterval w;
     pollInterval := pollInterval w; streamErrorLogged := streamErrorLogged w;
     downloads := downloads w; effects := e :: effects w;
     exitStatus := exitStatus w; suspended := suspended w |}.

Definition setSuspended (fs : list frame) (w : world) : world :=
  {| video := video w; server := server w; client := client w;
     playerProc := playerProc w; progressInterval := progressInterval w;
     pollInterval := pollInterval w; streamErrorLogged := streamErrorLogged w;
     downloads := downloads w; effects := effects w;
     exitStatus := exitStatus w; suspended := fs |}.

Definition suspend (f : frame) (w : world) : world :=
  setSuspended (suspended w ++ [f]) w.

Definition setDownloads (d : dirState) (w : world) : world :=
  {| video := video w; server := server w; client := client w;
     playerProc := playerProc w; progressInterval := progressInterval w;
     pollInterval := pollInterval w; streamErrorLogged := streamErrorLogged w;
     downloads := d; effects := effects w;
     exitStatus := exitStatus w; suspended := suspended w |}.

Definition setStreamErrorLogged (b : bool) (w : world) : world :=
  {| video := video w; server := server w; client := client w;
     playerProc := playerProc w; progressInterval := progressInterval w;
     pollInterval := pollInterval w; streamErrorLogged := b;
     downloads := downloads w; effects := effects w;
     exitStatus := exitStatus w; suspended := suspended w |}.

Definition setPlayerProc (b : bool) (w : world) : world :=
  {| video := video w; server := server w; client := client w;
     playerProc := b; progressInterval := progressInterval w;
     pollInterval := pollInterval w; streamErrorLogged := streamErrorLogged w;
     downloads := downloads w; effects := effects w;
     exitStatus := exitStatus w; suspended := suspended w |}.

(** Lines 70, 101 and 109: [server], [video] and [progressInterval]
    become defined. *)
Definition serving (v : file) (w : world) : world :=
  {| video := Some v; server := true; client := client w;
     playerProc := playerProc w; progressInterval := true;
     pollInterval := pollInterval w; streamErrorLogged := streamErrorLogged w;
     downloads := downloads w; effects := effects w;
     exitStatus := exitStatus w; suspended := suspended w |}.

(** The process is gone: nothing suspended will ever resume. *)
Definition terminate (e : effect) (code : Z) (w : world) : world :=
  {| video := video w; server := server w; client := client w;
     playerProc := playerProc w; progressInterval := progressInterval w;
     pollInterval := pollInterval w; streamErrorLogged := streamErrorLogged w;
     downloads := downloads w; effects := e :: effects w;
     exitStatus := Some code; suspended := [] |}.

(** [process.exit(exitCode)], line 222. *)
Definition processExit (code : Z) (w : world) : world :=
  terminate (ProcessExit code) code w.

(** The state once the prologue (lines 33-54) has run on a disk where
    the download directory is in state [d]. *)
Definition boot (d : dirState) : world :=
  {| video := None; server := false; client := true; playerProc := false;
     progressInterval := false; pollInterval := false;
     streamErrorLogged := false; downloads := mkdir d; effects := [];
     exitStatus := None; suspended := [] |}.

(** *** Reading the effects *)

Definition isExit (e : effect) : bool :=
  match e with
  | ProcessExit _ | UncaughtException => true
  | _ => false
  end.

Definition isShuttingDown (e : effect) : bool :=
  match e with Console LShuttingDown => true | _ => false end.

Definition isServerClose (e : effect) : bool :=
  match e with ServerClose => true | _ => false end.

Definition isClientDestroy (e : effect) : bool :=
  match e with ClientDestroy => true | _ => false end.

Definition isClearProgress (e : effect) : bool :=
  match e with ClearInterval ProgressTimer => true | _ => false end.

Definition isRespond (e : effect) : bool :=
  match e with Respond _ => true | _ => false end.

Definition isStreamLine (e : effect) : bool :=
  match e with Console (LStreamHiccup _) => true | _ => false end.

Definition isCleanupError (e : effect) : bool :=
  match e with Console (LCleanupError _) => true | _ => false end.

Definition count (p : effect -> bool) (w : world) : nat :=
  List.length (filter p (effects w)).

Definition isClearPoll (e : effect) : bool :=
  match e with ClearInterval PollTimer => true | _ => false end.

Definition isSpawn (e : effect) : bool :=
  match e with SpawnVlc | SpawnBrowser => true | _ => false end.

Definition isSpawnVlc (e : effect) : bool :=
  match e with SpawnVlc => true | _ => false end.

Definition isListen (e : effect) : bool :=
  match e with Listen => true | _ => false end.

Definition isCleaned (e : effect) : bool :=
  match e with Console LCleaned => true | _ => false end.

Definition isProcessExit (e : effect) : bool :=
  match e with ProcessExit _ => true | _ => false end.

(** The effects in the order they happened. *)
Definition history (w : world) : list effect := rev (effects w).

(** *** [logStreamError] (lines 124-129) *)

Definition logStreamError (message : string) (w : world) : world :=
  if negb (streamErrorLogged w) && JsString.includes "prematurely" message
  then setStreamErrorLogged true (emit (Console (LStreamHiccup message)) w)
  else w.

(** *** [shutdown] (lines 187-223)

    An async function: a call runs up to its next [await] and is then
    suspended; the event loop resumes it later.  The three functions
    below are the stretches of code that start at line 188, at line 198
    and at line 206. *)

(** Lines 206-208: [fs.readdir] is called and awaited. *)
Definition cleanup (code : Z) (w : world) : world :=
  suspend {| at_ := AwaitReaddir; exitCode := code |} w.

(** Lines 198-204. *)
Definition destroyClient (code : Z) (w : world) : world :=
  if client w
  then suspend {| at_ := AwaitGrace; exitCode := code |} (emit ClientDestroy w)
  else cleanup code w.

(** Lines 188-196, up to the first [await]. *)
Definition shutdown (code : Z) (w : world) : world :=
  let w := emit (Console LShuttingDown) w in
  let w := if progressInterval w then emit (ClearInterval ProgressTimer) w else w in
  let w := if pollInterval w then emit (ClearInterval PollTimer) w else w in
  if server w
  then suspend {| at_ := AwaitClose; exitCode := code |} (emit ServerClose w)
  else destroyClient code w.

Definition mem (s : string) (l : list string) : bool :=
  existsb (String.eqb s) l.

(** Lines 210-215 on the entries [names] read before: every removal is
    [force]d, so a name no longer there is no error; a busy entry
    rejects. *)
Definition rmFails (names : list string) (es : list entry) : bool :=
  existsb (fun e => busy e && mem (ename e) names) es.

(** What is left when line 222 is reached.  With no rejection
    [Promise.all] has waited for every removal.  With one it rejects at
    once, and [process.exit] cuts short the removals still under way:
    the slow entries stay as well. *)
Definition rmAll (names : list string) (es : list entry) : list entry :=
  if rmFails names es
  then filter (fun e => busy e || slow e || negb (mem (ename e) names)) es
  else filter (fun e => negb (mem (ename e) names)) es.

(** A suspended call continues from its [await].  Lines 206-220 sit in a
    [try ... catch]; whatever happens there, line 222 ends the process. *)
Definition resume (f : frame) (w : world) : world :=
  let code := exitCode f in
  match at_ f with
  | AwaitClose => destroyClient code (emit (Console LServerStopped) w)
  | AwaitGrace => cleanup code w
  | AwaitReaddir =>
      match downloads w with
      | Absent | Blocked => processExit code w              (* ENOENT *)
      | NotADirectory =>
          processExit code (emit (Console (LCleanupError "ENOTDIR")) w)
      | Directory [] => processExit code w
      | Directory (e :: es) =>
          suspend {| at_ := AwaitRm (map ename (e :: es)); exitCode := code |} w
      end
  | AwaitRm names =>
      let w :=
        match downloads w with
        | Directory es =>
            emit (Console (if rmFails names es
                           then LCleanupError "EBUSY" else LCleaned))
                 (setDownloads (Directory (rmAll names es)) w)
        | Absent | Blocked => emit (Console LCleaned) w
        | NotADirectory => emit (Console (LCleanupError "ENOTDIR")) w
        end in
      processExit code w
  end.

(** *** Event handlers *)

Inductive event : Type :=
| ClientError (msg : string)                 (* line 51 *)
| TorrentReady (files : list file) (escapes : bool)   (* line 57 *)
| Listening (vlcFound : bool)                (* line 101 *)
| Request (req : request)                    (* line 70 *)
| StreamError (msg : string)                 (* lines 81, 97 *)
| ProgressTick                               (* line 109 *)
| TorrentDone                                (* line 117 *)
| FileWritten (e : entry)                    (* the client stores data *)
| PlayerExit (code : option Z)               (* line 162 *)
| DestroyCallback (err : option string)      (* line 199 *)
| SigInt                                     (* line 228 *)
| Continue (i : nat)                         (* a suspended call resumes *)
| ListenError                                (* 'error' of the server *)
| SpawnError.                                (* 'error' of a child *)

(** The callback of [client.add] (lines 57-120).  With no video member
    [shutdown(1)] is called and control goes on to line 67, where
    [video.name] on [undefined] throws a TypeError: lines 70-119 are not
    reached.  [escapes] says whether the torrent library lets that
    exception reach the event loop, where it ends the process with
    status 1, as no [uncaughtException] handler is installed. *)
Definition onTorrent (files : list file) (escapes : bool) (w : world) : world :=
  let w := emit (Console LTorrent) w in
  match find (fun f => isVideo (name f)) files with
  | None =>
      let w := shutdown 1 (emit (Console LNoVideo) w) in
      if escapes then terminate UncaughtException 1 w else w
  | Some v =>
      let w := emit (Console (LVideo (name v))) w in
      emit Listen (serving v w)
  end.

(** [launchPlayer] (lines 134-181), called from the [listen] callback. *)
Definition launchPlayer (vlcFound : bool) (w : world) : world :=
  if vlcFound
  then emit (Console LVlcLaunched) (setPlayerProc true (emit SpawnVlc w))
  else emit (Console LBrowserLaunched) (emit SpawnBrowser w).

(** The torrent client writes under the download directory. *)
Definition addEntry (e : entry) (d : dirState) : dirState :=
  match d with
  | Directory es =>
      if mem (ename e) (map ename es) then d else Directory (es ++ [e])
  | other => other
  end.

Fixpoint removeNth {A : Type} (i : nat) (l : list A) : list A :=
  match i, l with
  | _, [] => []
  | O, _ :: t => t
  | S i', h :: t => h :: removeNth i' t
  end.

(** One turn of the event loop.  Nothing runs once the process is gone;
    an event whose source does not exist does not occur: no request
    without a server, no player exit without a player, no progress tick
    without a running timer.  Apart from that any event may come at any
    time, so the runs of the program are among the runs of the model.

    The server (line 101) and the spawned children (lines 153, 173) have
    no ['error'] listener: when [listen] fails (a port in use) or a child
    cannot be started, Node raises the error as an uncaught exception and
    the process ends with status 1, with no call of [shutdown]. *)
Definition dispatch (w : world) (ev : event) : world :=
  match exitStatus w with
  | Some _ => w
  | None =>
      match ev with
      | ClientError msg => shutdown 1 (emit (Console (LClientError msg)) w)
      | TorrentReady files escapes => onTorrent files escapes w
      | Listening vlcFound =>
          if server w
          then launchPlayer vlcFound (emit (Console LStreamingReady) w)
          else w
      | Request req =>
          match video w with
          | Some v => if server w then emit (Respond (handler v req)) w else w
          | None => w
          end
      | StreamError msg => logStreamError msg w
      | ProgressTick =>
          if progressInterval w && negb (existsb isClearProgress (effects w))
          then emit (Console LProgress) w
          else w
      | TorrentDone => emit (Console LDownloadComplete) w
      | FileWritten e => setDownloads (addEntry e (downloads w)) w
      | PlayerExit code =>
          if playerProc w
          then shutdown 0 (emit (Console (LVlcExited code)) w)
          else w
      | DestroyCallback err =>
          match err with
          | Some msg => emit (Console (LClientDestroyError msg)) w
          | None => emit (Console LClientDestroyed) w
          end
      | SigInt => shutdown 0 (emit (Console LSigint) w)
      | Continue i =>
          match nth_error (suspended w) i with
          | Some f => resume f (setSuspended (removeNth i (suspended w)) w)
          | None => w
          end
      | ListenError =>
          if server w then terminate UncaughtException 1 w else w
      | SpawnError =>
          if existsb isSpawn (effects w)
          then terminate UncaughtException 1 w
          else w
      end
  end.

Definition run (w : world) (evs : list event) : world :=
  fold_left dispatch evs w.

(** The oldest suspended call resumes, [n] times over: with one call of
    [shutdown] in flight this runs it to its end. *)
Fixpoint settle (n : nat) (w : world) : world :=
  match n with
  | O => w
  | S n' => settle n' (dispatch w (Continue 0))
  end.

(** Whether event [ev] calls [shutdown] in world [w]. *)
Definition triggers (w : world) (ev : event) : bool :=
  match exitStatus w with
  | Some _ => false
  | None =>
      match ev with
      | ClientError _ => true
      | TorrentReady files _ =>
          match find (fun f => isVideo (name f)) files with
          | None => true
          | Some _ => false
          end
      | PlayerExit _ => playerProc w
      | SigInt => true
      | _ => false
      end
  end.

(** The number of events of [evs] that call [shutdown] along the run,
    counting those that do so in a world where [c] holds. *)
Fixpoint triggered (c : world -> bool) (w : world) (evs : list event) : nat :=
  match evs with
  | [] => O
  | ev :: rest =>
      ((if triggers w ev && c w then 1 else 0)
       + triggered c (dispatch w ev) rest)%nat
  end.

Definition always (w : world) : bool := true.

(** 1 once the process is gone. *)
Definition gone (w : world) : nat :=
  match exitStatus w with Some _ => 1%nat | None => 0%nat end.

(** 1 once [streamErrorLogged] is set. *)
Definition flagged (w : world) : nat :=
  if streamErrorLogged w then 1%nat else 0%nat.

(** A printed stream error is one of a read that ended prematurely. *)
Definition premature (e : effect) : bool :=
  match e with
  | Console (LStreamHiccup m) => JsString.includes "prematurely" m
  | _ => true
  end.

(** Any event but the [client.add] callback. *)
Definition notTorrentReady (ev : event) : bool :=
  match ev with TorrentReady _ _ => false | _ => true end.

(** A torrent with one video member, and a session that has started
    streaming it to VLC. *)
Definition sampleFiles : list file :=
  [ {| name := "readme.txt"; length := 120 |};
    {| name := "movie.mkv"; length := 5000000 |} ].

Definition started : list event :=
  [TorrentReady sampleFiles false; Listening true;
   FileWritten {| ename := "movie.mkv"; busy := false; slow := false |}].

(** Any event but the [listen] callback finding VLC. *)
Definition noVlc (ev : event) : bool :=
  match ev with Listening true => false | _ => true end.

(** On a list of effects, the latest first: a player or browser is
    started straight after the line of the [listen] callback, and that
    line and every answer to a request come after the call of [listen]. *)
Fixpoint listenFirst (l : list effect) : bool :=
  match l with
  | [] => true
  | e :: older =>
      (if isSpawn e
       then match older with
            | Console LStreamingReady :: before => existsb isListen before
            | _ => false
            end
       else if isRespond e then existsb isListen older
       else true)
      && listenFirst older
  end.

(** An event that ends the process by an uncaught error. *)
Definition crashes (ev : event) : bool :=
  match ev with
  | ListenError | SpawnError => true
  | _ => false
  end.

(** Any event but a write to the download directory. *)
Definition noWrite (ev : event) : bool :=
  match ev with FileWritten _ => false | _ => true end.

(** A directory state on which lines 206-220 cannot fail. *)
Definition tidy (d : dirState) : bool :=
  match d with
  | NotADirectory => false
  | Directory es => forallb (fun e => negb (busy e)) es
  | Absent | Blocked => true
  end.

(** ... and what they leave of it. *)
Definition cleaned (d : dirState) : dirState :=
  match d with
  | Directory _ => Directory []
  | other => other
  end.

(** A call suspended at line 210 has read the directory as it is in
    state [d]. *)
Definition frameReads (d : dirState) (f : frame) : Prop :=
  match at_ f with
  | AwaitRm names =>
      match d with
      | Directory es => names = map ename es
      | _ => False
      end
  | _ => True
  end.

(** The download directory was in state [d] when nothing was written to
    it any more: it is still so until a call of [shutdown] reaches
    [process.exit], and cleaned from then on; no cleanup error is
    printed. *)
Definition cleaning (d : dirState) (errors exits : nat) (w : world) : Prop :=
  count isCleanupError w = errors /\
  (count isProcessExit w = exits ->
   downloads w = d /\ Forall (frameReads d) (suspended w)) /\
  (count isProcessExit w <> exits ->
   downloads w = cleaned d /\ exitStatus w <> None).

(** An event whose handler passes 1 to [shutdown]. *)
Definition fatal (ev : event) : bool :=
  match ev with
  | ClientError _ => true
  | TorrentReady files _ =>
      match find (fun f => isVideo (name f)) files with
      | None => true
      | Some _ => false
      end
  | _ => false
  end.

(** Every exit code in flight, and the exit status if there is one,
    passes [ok]. *)
Definition codesIn (ok : Z -> bool) (w : world) : bool :=
  forallb (fun f => ok (exitCode f)) (suspended w)
  && match exitStatus w with Some c => ok c | None => true end.

Definition isClose (f : frame) : bool :=
  match at_ f with AwaitClose => true | _ => false end.

(** The calls of [shutdown] that have not got past [server.close]. *)
Definition closing (w : world) : nat :=
  List.length (filter isClose (suspended w)).

(** Each call of [shutdown] has destroyed the client at most once, and
    not yet if it still waits for the server to close. *)
Definition destroysBounded (w : world) : Prop :=
  (count isClientDestroy w + closing w <= count isShuttingDown w)%nat.

(** What lines 206-220 print for a download directory in state [d]. *)
Definition cleanupLines (d : dirState) : list effect :=
  match d with
  | Absent | Blocked => []
  | NotADirectory => [Console (LCleanupError "ENOTDIR")]
  | Directory [] => []
  | Directory es =>
      [Console (if rmFails (map ename es) es
                then LCleanupError "EBUSY" else LCleaned)]
  end.

(** The steps of one call [shutdown(code)] in world [w], first to last. *)
Definition teardown (w : world) (code : Z) : list effect :=
  ([Console LShuttingDown]
   ++ (if progressInterval w then [ClearInterval ProgressTimer] else [])
   ++ (if pollInterval w then [ClearInterval PollTimer] else [])
   ++ (if server w then [ServerClose; Console LServerStopped] else [])
   ++ (if client w then [ClientDestroy] else [])
   ++ cleanupLines (downloads w)
   ++ [ProcessExit code])%list.

End Lifecycle.

(* ================================================================== *)
(** ** Facts about strings and numbers *)

Module JsFacts.

Import JsString.

Lemma append_assoc (a b c : string) : (a ++ b) ++ c = a ++ (b ++ c).
Proof. induction a as [| x a IH]; cbn [append]; [reflexivity | now rewrite IH]. Qed.

Lemma append_nil_r (a : string) : a ++ EmptyString = a.
Proof. induction a as [| x a IH]; cbn [append]; [reflexivity | now rewrite IH]. Qed.

Lemma digitValue_digitChar (d : Z) :
  0 <= d < 10 -> digitValue (digitChar d) = Some d.
Proof.
  intros H.
  assert (E : d = 0 \/ d = 1 \/ d = 2 \/ d = 3 \/ d = 4 \/ d = 5 \/
              d = 6 \/ d = 7 \/ d = 8 \/ d = 9) by lia.
  repeat (destruct E as [E | E]; [subst d; reflexivity |]).
  subst d; reflexivity.
Qed.

Lemma allDigits_app (a b : string) :
  allDigits (a ++ b) = allDigits a && allDigits b.
Proof.
  induction a as [| c a IH]; simpl; [reflexivity |].
  destruct (digitValue c); [exact IH | reflexivity].
Qed.

Lemma digits_allDigits (f : nat) : forall n, 0 <= n -> allDigits (digits f n) = true.
Proof.
  induction f as [| f IH]; intros n Hn; cbn [digits allDigits].
  - rewrite digitValue_digitChar; [reflexivity |].
    apply Z.mod_pos_bound; lia.
  - destruct (Z.ltb_spec n 10) as [Hlt | Hge]; cbn [allDigits].
    + rewrite digitValue_digitChar; [reflexivity | lia].
    + rewrite allDigits_app, IH by (apply Z.div_pos; lia). cbn [allDigits andb].
      rewrite digitValue_digitChar; [reflexivity |].
      apply Z.mod_pos_bound; lia.
Qed.

Lemma digits_nonempty (f : nat) (n : Z) : digits f n <> EmptyString.
Proof.
  destruct f as [| f]; cbn [digits]; [discriminate |].
  destruct (n <? 10); [discriminate |].
  destruct (digits f (n / 10)); discriminate.
Qed.

(** Reading back what [digits] wrote. *)
Lemma readDigits_digits (f : nat) :
  forall n, 0 <= n < 10 ^ (Z.of_nat f + 1) ->
  exists k, forall rest a,
    readDigits (digits f n ++ rest) (Some a) = readDigits rest (Some (a * k + n)).
Proof.
  induction f as [| f IH]; intros n Hn.
  - exists 10. intros rest a. cbn [digits append readDigits].
    change (10 ^ (Z.of_nat 0 + 1)) with 10 in Hn.
    rewrite Z.mod_small by lia.
    rewrite digitValue_digitChar by lia. f_equal. f_equal. lia.
  - cbn [digits]. destruct (Z.ltb_spec n 10) as [Hlt | Hge].
    + exists 10. intros rest a. cbn [append readDigits].
      rewrite digitValue_digitChar by lia. f_equal. f_equal. lia.
    + assert (Hq : 0 <= n / 10 < 10 ^ (Z.of_nat f + 1)).
      { split; [apply Z.div_pos; lia |].
        apply Z.div_lt_upper_bound; [lia |].
        replace (Z.of_nat (S f) + 1) with (Z.succ (Z.of_nat f + 1)) in Hn by lia.
        rewrite Z.pow_succ_r in Hn by lia. lia. }
      destruct (IH _ Hq) as [k Hk].
      exists (k * 10). intros rest a.
      rewrite append_assoc. rewrite Hk. cbn [append readDigits].
      rewrite digitValue_digitChar by (apply Z.mod_pos_bound; lia).
      f_equal. f_equal.
      pose proof (Z.div_mod n 10 ltac:(lia)). lia.
Qed.

Lemma decimal_fuel (n : Z) :
  0 <= n -> 0 <= n < 10 ^ (Z.of_nat (Z.to_nat (Z.log2 n)) + 1).
Proof.
  intros Hn. split; [exact Hn |].
  rewrite Z2Nat.id by apply Z.log2_nonneg.
  destruct (Z.eq_dec n 0) as [-> | Hnz]; [reflexivity |].
  pose proof (Z.log2_spec n ltac:(lia)) as [_ Hup].
  pose proof (Z.log2_nonneg n).
  apply Z.lt_le_trans with (1 := Hup).
  replace (Z.succ (Z.log2 n)) with (Z.log2 n + 1) by lia.
  apply Z.pow_le_mono_l. lia.
Qed.

Lemma decimal_allDigits (n : Z) : 0 <= n -> allDigits (decimal n) = true.
Proof. apply digits_allDigits. Qed.

Lemma decimal_nonempty (n : Z) : decimal n <> EmptyString.
Proof. apply digits_nonempty. Qed.

Lemma readDigits_decimal (n : Z) (rest : string) :
  0 <= n -> readDigits (decimal n ++ rest) (Some 0) = readDigits rest (Some n).
Proof.
  intros Hn. destruct (readDigits_digits _ n (decimal_fuel n Hn)) as [k Hk].
  unfold decimal. rewrite Hk. reflexivity.
Qed.

(** A digit is neither white space nor a sign nor the separator. *)
Lemma digit_plain (c : ascii) (d : Z) :
  digitValue c = Some d ->
  isWhiteSpace c = false /\ c <> "-"%char /\ c <> "+"%char
  /\ Ascii.eqb c "-"%char = false.
Proof.
  unfold digitValue, isWhiteSpace. intros H.
  destruct (Nat.leb 48 (nat_of_ascii c) && Nat.leb (nat_of_ascii c) 57)%bool eqn:E;
    [| discriminate].
  apply andb_prop in E as [E1 E2].
  apply Nat.leb_le in E1, E2.
  assert (N1 : c <> "-"%char) by (intros ->; vm_compute in E1; lia).
  assert (N2 : c <> "+"%char) by (intros ->; vm_compute in E1; lia).
  repeat split; try assumption.
  - destruct (Nat.leb_spec 9 (nat_of_ascii c)); destruct (Nat.leb_spec (nat_of_ascii c) 13);
      destruct (Nat.eqb_spec (nat_of_ascii c) 32);
      destruct (Nat.eqb_spec (nat_of_ascii c) 160); simpl; try reflexivity; lia.
  - apply Ascii.eqb_neq. exact N1.
Qed.

Lemma readDigits_some (s : string) :
  forall a, exists v, readDigits s (Some a) = Some v.
Proof.
  induction s as [| c s IH]; intros a; cbn [readDigits]; [eauto |].
  destruct (digitValue c); [apply IH | eauto].
Qed.

(** With no white space and no sign in front, [parseInt] reads digits
    from the first character on. *)
Lemma parseInt10_unsigned (c : ascii) (s : string) :
  isWhiteSpace c = false -> c <> "-"%char -> c <> "+"%char ->
  parseInt10 (String c s)
  = match readDigits (String c s) None with
    | Some v => round53 (1 * v)
    | None => NaN
    end.
Proof.
  intros Hws Hm Hp. unfold parseInt10. cbn [trimStart]. rewrite Hws.
  destruct c as [[] [] [] [] [] [] [] []]; try reflexivity; congruence.
Qed.

(** [parseInt] on a non-empty run of digits reads all of it. *)
Lemma parseInt10_allDigits (s : string) :
  allDigits s = true -> s <> EmptyString ->
  exists v, readDigits s (Some 0) = Some v /\ parseInt10 s = round53 v.
Proof.
  intros Hd Hne. destruct s as [| c s]; [congruence |].
  cbn [allDigits] in Hd. destruct (digitValue c) as [d |] eqn:Hc; [| discriminate].
  destruct (digit_plain c d Hc) as (Hws & Hm & Hp & _).
  destruct (readDigits_some (String c s) 0) as [v Hv].
  exists v. split; [exact Hv |].
  rewrite parseInt10_unsigned by assumption.
  cbn [readDigits] in Hv |- *. rewrite Hc in Hv |- *.
  rewrite Hv. f_equal. lia.
Qed.

(** [parseInt] on a text that starts with anything but white space, a
    sign or a digit. *)
Lemma parseInt10_no_digit (c : ascii) (s : string) :
  isWhiteSpace c = false -> c <> "-"%char -> c <> "+"%char ->
  digitValue c = None -> parseInt10 (String c s) = NaN.
Proof.
  intros Hws Hm Hp Hd. rewrite parseInt10_unsigned by assumption.
  cbn [readDigits]. rewrite Hd. reflexivity.
Qed.

(** Below 2^53 nothing is rounded. *)
Lemma round53_small (z : Z) : Z.abs z < twoTo53 -> round53 z = Num z.
Proof.
  intros H. unfold round53. cbv zeta.
  destruct (Z.ltb_spec (Z.abs z) twoTo53); [reflexivity | lia].
Qed.

Lemma round53_exact (z : Z) : Z.abs z <= twoTo53 -> round53 z = Num z.
Proof.
  intros H. destruct (Z.eq_dec (Z.abs z) twoTo53) as [E | E].
  - destruct (Z.abs_eq_or_opp z) as [A | A]; rewrite A in E.
    + subst z. vm_compute. reflexivity.
    + assert (z = - twoTo53) as -> by lia. vm_compute. reflexivity.
  - apply round53_small. lia.
Qed.

(** What [parseInt] makes of a decimal: the double nearest to it. *)
Lemma parseInt10_decimal_round (n : Z) :
  0 <= n -> parseInt10 (decimal n) = round53 n.
Proof.
  intros Hn.
  destruct (parseInt10_allDigits (decimal n) (decimal_allDigits n Hn)
              (decimal_nonempty n)) as (v & Hv & Hp).
  rewrite Hp. f_equal.
  pose proof (readDigits_decimal n EmptyString Hn) as H.
  rewrite append_nil_r in H. cbn [readDigits] in H. congruence.
Qed.

Lemma parseInt10_decimal (n : Z) :
  0 <= n < twoTo53 -> parseInt10 (decimal n) = Num n.
Proof.
  intros Hn. rewrite parseInt10_decimal_round by lia.
  apply round53_small. lia.
Qed.

Lemma split_allDigits (s : string) :
  allDigits s = true -> split "-"%char s = [s].
Proof.
  induction s as [| c s IH]; intros H; [reflexivity |].
  simpl in H. destruct (digitValue c) as [d |] eqn:Hc; [| discriminate].
  destruct (digit_plain c d Hc) as (_ & _ & _ & Hsep).
  simpl. rewrite Hsep, (IH H). reflexivity.
Qed.

Lemma split_digits_dash (s rest : string) :
  allDigits s = true ->
  split "-"%char (s ++ String "-"%char rest) = s :: split "-"%char rest.
Proof.
  induction s as [| c s IH]; intros H; [reflexivity |].
  simpl in H. destruct (digitValue c) as [d |] eqn:Hc; [| discriminate].
  destruct (digit_plain c d Hc) as (_ & _ & _ & Hsep).
  cbn [append split]. rewrite Hsep, (IH H). reflexivity.
Qed.

Lemma toString_nonneg (n : Z) :
  0 <= n < twoTo53 -> toString (Num n) = decimal n.
Proof.
  intros H. unfold toString, unsigned.
  destruct (Z.ltb_spec n 0); [lia |].
  destruct (Z.ltb_spec n twoTo53); [reflexivity | lia].
Qed.

End JsFacts.

(* ================================================================== *)
(** ** The request handler *)

Module HttpFacts.

Import Http JsFacts.

(** The response to a GET without a usable [Range] header. *)
Lemma handler_full (video : file) (r : option string) :
  JsString.truthy r = false ->
  handler video (get r) =
  {| statusCode := Some 200;
     headers := [("Accept-Ranges", HStr "bytes");
                 ("Content-Type", HStr "video/mp4");
                 ("Content-Length", HNum (Num (length video)))];
     piped := Some Whole;
     ended := false |}.
Proof.
  intros H. unfold handler, get. cbn [method range]. rewrite H. reflexivity.
Qed.

(** The response to a GET with a non-empty [Range] header: the parsed
    bounds go into the headers and into the read as they are. *)
Lemma handler_partial (video : file) (hdr : string) :
  hdr <> "" ->
  handler video (get (Some hdr)) =
  let size := Num (length video) in
  let start := fst (parseRange hdr size) in
  let end_ := snd (parseRange hdr size) in
  {| statusCode := Some 206;
     headers := [("Accept-Ranges", HStr "bytes");
                 ("Content-Type", HStr "video/mp4");
                 ("Content-Range",
                  HStr ("bytes " ++ toString start ++ "-" ++ toString end_
                          ++ "/" ++ toString size));
                 ("Content-Length", HNum (add (sub end_ start) (Num 1)))];
     piped := Some (Slice start end_);
     ended := false |}.
Proof.
  intros H. unfold handler, get. cbn [method range].
  assert (T : JsString.truthy (Some hdr) = true)
    by (destruct hdr; [congruence | reflexivity]).
  rewrite T. cbn zeta.
  destruct (parseRange hdr (Num (length video))) as [s e]. reflexivity.
Qed.

Lemma rangeHeader_nonempty (start : Z) (oend : option Z) :
  rangeHeader start oend <> "".
Proof. discriminate. Qed.

Lemma add_exact (x y : Z) :
  Z.abs (x + y) <= twoTo53 -> add (Num x) (Num y) = Num (x + y).
Proof. intros H. cbn [add]. now apply round53_exact. Qed.

Lemma sub_exact (x y : Z) :
  Z.abs (x - y) <= twoTo53 -> sub (Num x) (Num y) = Num (x - y).
Proof.
  intros H. unfold sub. cbn [neg].
  replace (x - y) with (x + - y) in * by lia. now apply add_exact.
Qed.

(** Lines 86-88 on a well-formed header: each bound is the double
    nearest to what is written. *)
Lemma parseRange_rangeHeader_round (start : Z) (size : number) (oend : option Z) :
  0 <= start ->
  match oend with Some e => 0 <= e | None => True end ->
  parseRange (rangeHeader start oend) size
  = (round53 start,
     match oend with Some e => round53 e | None => sub size (Num 1) end).
Proof.
  intros Hs He. unfold parseRange, rangeHeader.
  change (JsString.replace "bytes=" ""
            ("bytes=" ++ decimal start ++ "-" ++
             match oend with Some e => decimal e | None => "" end))
    with (decimal start ++ String "-"%char
            match oend with Some e => decimal e | None => "" end).
  rewrite split_digits_dash by (apply decimal_allDigits; exact Hs).
  destruct oend as [e |].
  - rewrite split_allDigits by (apply decimal_allDigits; exact He).
    cbn [nth_error].
    assert (T : JsString.truthy (Some (decimal e)) = true).
    { pose proof (decimal_nonempty e). destruct (decimal e); [congruence | reflexivity]. }
    rewrite T, !parseInt10_decimal_round by assumption. reflexivity.
  - cbn [JsString.split nth_error JsString.truthy].
    rewrite parseInt10_decimal_round by assumption. reflexivity.
Qed.

(** ... and the bound itself below 2^53. *)
Lemma parseRange_rangeHeader (start size : Z) (oend : option Z) :
  0 <= start < twoTo53 ->
  match oend with
  | Some e => 0 <= e < twoTo53
  | None => 0 <= size <= twoTo53
  end ->
  parseRange (rangeHeader start oend) (Num size)
  = (Num start, Num match oend with Some e => e | None => size - 1 end).
Proof.
  intros Hs He.
  rewrite parseRange_rangeHeader_round by (destruct oend; lia).
  rewrite round53_small by lia.
  destruct oend as [e |].
  - rewrite round53_small by lia. reflexivity.
  - rewrite sub_exact by lia. reflexivity.
Qed.

(** Lines 86-87 on a header with no number after [bytes=]. *)
Lemma parseRange_start_NaN (c : ascii) (rest : string) (size : number) :
  isWhiteSpace c = false -> c <> "+"%char -> digitValue c = None ->
  fst (parseRange ("bytes=" ++ String c rest) size) = NaN.
Proof.
  intros Hws Hp Hd. unfold parseRange.
  change (JsString.replace "bytes=" "" ("bytes=" ++ String c rest))
    with (String c rest).
  cbn [JsString.split].
  destruct (Ascii.eqb_spec c "-"%char) as [-> | Hm]; [reflexivity |].
  destruct (JsString.split "-" rest) as [| h t]; cbn [nth_error fst];
    apply parseInt10_no_digit; assumption.
Qed.

Lemma toString_exact (n : Z) :
  0 <= n <= twoTo53 -> toString (Num n) = decimal n.
Proof.
  intros H. destruct (Z.eq_dec n twoTo53) as [-> | E].
  - vm_compute. reflexivity.
  - apply toString_nonneg. lia.
Qed.

(** C4, as the claim has it, fails where numbers stop being exact: in a
    file of more than 2^53 bytes the end 2^53 + 1 is read as 2^53, and
    Content-Range and Content-Length are those of the rounded bound. *)
Lemma range_bounds_are_rounded :
  let video := {| name := "movie.mkv"; length := 9007199254741002 |} in
  let res := handler video (get (Some (rangeHeader 0 (Some 9007199254740993)))) in
  9007199254740993 < length video /\
  getHeader "Content-Range" (headers res)
    = Some (HStr "bytes 0-9007199254740992/9007199254741002") /\
  getHeader "Content-Range" (headers res)
    <> Some (HStr "bytes 0-9007199254740993/9007199254741002") /\
  getHeader "Content-Length" (headers res) = Some (HNum (Num 9007199254740992)) /\
  getHeader "Content-Length" (headers res)
    <> Some (HNum (Num (9007199254740993 - 0 + 1))).
Proof.
  cbv zeta. split; [cbn; lia |].
  split; [vm_compute; reflexivity |].
  split; [vm_compute; discriminate |].
  split; [vm_compute; reflexivity | vm_compute; discriminate].
Qed.

(** C4, amended.  For a file of at most 2^53 bytes, a GET whose Range
    header is [bytes=start-end] with 0 <= start <= end < length, the end
    defaulting to length - 1 when it is left out, is answered 206 with
    Content-Range [bytes start-end/length] and Content-Length
    end - start + 1; the read covers exactly that range. *)
Theorem range_request_206 (video : file) (start : Z) (oend : option Z) :
  let size := length video in
  let end_ := match oend with Some e => e | None => size - 1 end in
  size <= twoTo53 ->
  0 <= start -> start <= end_ -> end_ < size ->
  handler video (get (Some (rangeHeader start oend))) =
  {| statusCode := Some 206;
     headers := [("Accept-Ranges", HStr "bytes");
                 ("Content-Type", HStr "video/mp4");
                 ("Content-Range",
                  HStr ("bytes " ++ decimal start ++ "-" ++ decimal end_
                          ++ "/" ++ decimal size));
                 ("Content-Length", HNum (Num (end_ - start + 1)))];
     piped := Some (Slice (Num start) (Num end_));
     ended := false |}.
Proof.
  intros size end_ Hsz H0 H1 H2.
  rewrite handler_partial by apply rangeHeader_nonempty.
  fold size. cbv zeta.
  rewrite (parseRange_rangeHeader start size oend)
    by (destruct oend; subst end_; lia).
  fold end_. cbn [fst snd].
  rewrite sub_exact, add_exact by lia.
  rewrite !toString_exact by lia. reflexivity.
Qed.

Lemma range_request_206_witness :
  handler {| name := "movie.mkv"; length := 5000000 |}
          (get (Some "bytes=1000-1999")) =
  {| statusCode := Some 206;
     headers := [("Accept-Ranges", HStr "bytes");
                 ("Content-Type", HStr "video/mp4");
                 ("Content-Range", HStr "bytes 1000-1999/5000000");
                 ("Content-Length", HNum (Num 1000))];
     piped := Some (Slice (Num 1000) (Num 1999));
     ended := false |}.
Proof.
  exact (range_request_206 {| name := "movie.mkv"; length := 5000000 |}
           1000 (Some 1999) ltac:(unfold twoTo53; cbn; lia) ltac:(lia)
           ltac:(cbn; lia) ltac:(cbn; lia)).
Defined.

(** C7.  A GET with no Range header is answered 200 with Content-Length
    equal to the length of the file and Accept-Ranges: bytes; the whole
    file is read. *)
Theorem no_range_200 (video : file) :
  let res := handler video (get None) in
  statusCode res = Some 200 /\
  getHeader "Content-Length" (headers res) = Some (HNum (Num (length video))) /\
  getHeader "Accept-Ranges" (headers res) = Some (HStr "bytes") /\
  piped res = Some Whole.
Proof.
  cbv zeta. rewrite handler_full by reflexivity. repeat split.
Qed.

(** C10.  Every response to a GET, 200 or 206, has Content-Type
    video/mp4, whatever the name of the selected file. *)
Theorem content_type_video_mp4 (video : file) (r : option string) :
  let res := handler video (get r) in
  (statusCode res = Some 200 \/ statusCode res = Some 206) /\
  getHeader "Content-Type" (headers res) = Some (HStr "video/mp4").
Proof.
  cbv zeta. destruct (JsString.truthy r) eqn:T.
  - destruct r as [hdr |]; [| discriminate].
    rewrite handler_partial by (intros ->; discriminate).
    split; [right |]; reflexivity.
  - rewrite handler_full by exact T.
    split; [left |]; reflexivity.
Qed.

(** C6, as the claim has it, fails: bounds that break
    0 <= start <= end < length are served with 206 all the same. *)
Lemma range_invariant_not_enforced :
  let res := handler {| name := "movie.mkv"; length := 100 |}
                     (get (Some "bytes=10-5")) in
  statusCode res = Some 206 /\
  piped res = Some (Slice (Num 10) (Num 5)) /\
  getHeader "Content-Range" (headers res) = Some (HStr "bytes 10-5/100") /\
  getHeader "Content-Length" (headers res) = Some (HNum (Num (-4))) /\
  ~ validRange (Num 10) (Num 5) 100.
Proof.
  cbv zeta. repeat split; try (vm_compute; reflexivity).
  unfold validRange. lia.
Qed.

Example range_end_beyond_length :
  let res := handler {| name := "movie.mkv"; length := 100 |}
                     (get (Some "bytes=0-999")) in
  statusCode res = Some 206 /\
  getHeader "Content-Range" (headers res) = Some (HStr "bytes 0-999/100") /\
  getHeader "Content-Length" (headers res) = Some (HNum (Num 1000)).
Proof. cbv zeta. repeat split; vm_compute; reflexivity. Qed.

(** Bounds from 2^53 on are served as the program rounds and prints
    them. *)
Example range_bounds_as_doubles :
  let video := {| name := "movie.mkv"; length := 100 |} in
  getHeader "Content-Range"
    (headers (handler video (get (Some "bytes=0-9007199254740993"))))
  = Some (HStr "bytes 0-9007199254740992/100") /\
  getHeader "Content-Range"
    (headers (handler video (get (Some "bytes=0-1000000000000000000000"))))
  = Some (HStr "bytes 0-1e+21/100").
Proof. cbv zeta. split; vm_compute; reflexivity. Qed.

(** C6, amended.  A non-empty Range header is always answered 206, and
    the range served is the parsed one, unchecked: Content-Range,
    Content-Length = end - start + 1 and the read all carry the parsed
    bounds, which are the doubles [parseInt] gives.  So the served range
    satisfies 0 <= start <= end < length exactly when the parsed bounds
    do, and then, in a file of at most 2^53 bytes, Content-Length lies
    between 1 and the length. *)
Theorem served_range_is_parsed_range (video : file) (hdr : string) :
  hdr <> "" ->
  let size := length video in
  let res := handler video (get (Some hdr)) in
  let start := fst (parseRange hdr (Num size)) in
  let end_ := snd (parseRange hdr (Num size)) in
  statusCode res = Some 206 /\
  piped res = Some (Slice start end_) /\
  getHeader "Content-Range" (headers res)
    = Some (HStr ("bytes " ++ toString start ++ "-" ++ toString end_
                    ++ "/" ++ toString (Num size))) /\
  getHeader "Content-Length" (headers res)
    = Some (HNum (add (sub end_ start) (Num 1))) /\
  (validRange start end_ size -> size <= twoTo53 ->
   exists n, add (sub end_ start) (Num 1) = Num n /\ 1 <= n <= size).
Proof.
  intros H. cbv zeta. rewrite handler_partial by exact H. cbv zeta.
  repeat split.
  destruct (parseRange hdr (Num (length video))) as [[| s |] [| e |]];
    cbn [fst snd validRange]; try contradiction.
  intros (H0 & H1 & H2) Hsz. exists (e - s + 1).
  rewrite sub_exact, add_exact by lia. split; [reflexivity | lia].
Qed.

Lemma served_range_is_parsed_range_witness :
  let video := {| name := "movie.mkv"; length := 100 |} in
  let res := handler video (get (Some "bytes=10-5")) in
  statusCode res = Some 206 /\
  piped res = Some (Slice (Num 10) (Num 5)).
Proof.
  cbv zeta.
  pose proof (served_range_is_parsed_range
                {| name := "movie.mkv"; length := 100 |} "bytes=10-5"
                ltac:(discriminate)) as (H1 & H2 & _).
  split; [exact H1 | exact H2].
Defined.

(** C5, as the claim has it, fails: a header with no number in it is
    answered 206 with NaN bounds, while an empty header value gets the
    full-content 200. *)
Lemma malformed_range_gives_NaN :
  let video := {| name := "movie.mkv"; length := 100 |} in
  let res := handler video (get (Some "bytes=abc")) in
  statusCode res = Some 206 /\
  getHeader "Content-Range" (headers res) = Some (HStr "bytes NaN-99/100") /\
  getHeader "Content-Length" (headers res) = Some (HNum NaN) /\
  piped res = Some (Slice NaN (Num 99)) /\
  statusCode (handler video (get (Some ""))) = Some 200.
Proof. cbv zeta. repeat split; vm_compute; reflexivity. Qed.

Example suffix_range_gives_NaN :
  let res := handler {| name := "movie.mkv"; length := 100 |}
                     (get (Some "bytes=-20")) in
  statusCode res = Some 206 /\
  getHeader "Content-Range" (headers res) = Some (HStr "bytes NaN-20/100") /\
  getHeader "Content-Length" (headers res) = Some (HNum NaN).
Proof. cbv zeta. repeat split; vm_compute; reflexivity. Qed.

(** C5, amended.  The handler never answers 416.  An empty Range value
    is treated as no header: 200 with the whole file.  Every other
    value, malformed or not, is answered 206; when no integer can be
    read at the head of the text before the first [-], the start bound
    and Content-Length are NaN. *)
Theorem malformed_range_policy (video : file) (hdr : string) :
  let size := length video in
  let res := handler video (get (Some hdr)) in
  statusCode res <> Some 416 /\
  (hdr = "" ->
   statusCode res = Some 200 /\ piped res = Some Whole /\
   getHeader "Content-Length" (headers res) = Some (HNum (Num size))) /\
  (hdr <> "" ->
   statusCode res = Some 206 /\
   (fst (parseRange hdr (Num size)) = NaN ->
    getHeader "Content-Length" (headers res) = Some (HNum NaN) /\
    piped res = Some (Slice NaN (snd (parseRange hdr (Num size)))))) /\
  (forall c rest,
     hdr = "bytes=" ++ String c rest ->
     isWhiteSpace c = false -> c <> "+"%char -> digitValue c = None ->
     fst (parseRange hdr (Num size)) = NaN).
Proof.
  cbv zeta. destruct hdr as [| c hdr].
  - rewrite handler_full by reflexivity.
    split; [cbn; congruence |]. split; [intros _; repeat split |].
    split; [intros H; contradiction H; reflexivity |].
    intros c rest E. discriminate E.
  - rewrite handler_partial by discriminate. cbv zeta.
    split; [cbn; congruence |]. split; [discriminate |]. split.
    + intros _. split; [reflexivity |].
      destruct (parseRange (String c hdr) (Num (length video))) as [s e].
      cbn [fst snd]. intros ->. split; [destruct e |]; reflexivity.
    + intros c0 rest E. rewrite E. now apply parseRange_start_NaN.
Qed.

End HttpFacts.

(* ================================================================== *)
(** ** The event loop and the shutdown routine *)

Module LifecycleFacts.

Import Http Lifecycle.

(** Proofs about one turn of the loop go by evaluation: the world is
    opened into its fields, the handlers are unfolded, and the tests they
    make are split into cases. *)
Ltac open_world w :=
  destruct w as [v sv cl pp pi po sl dl effs ex sus].

Ltac eval_handlers :=
  cbv beta iota zeta delta
    [dispatch triggers onTorrent launchPlayer logStreamError resume
     shutdown destroyClient cleanup processExit terminate suspend
     setSuspended setDownloads setStreamErrorLogged setPlayerProc serving
     emit count always
     video server client playerProc progressInterval pollInterval
     streamErrorLogged downloads effects exitStatus suspended at_ exitCode
     andb orb negb] in *.

(** The same with the queue of suspended calls, for a world where that
    queue is known. *)
Ltac eval_settle :=
  cbv beta iota zeta delta
    [dispatch triggers onTorrent launchPlayer logStreamError resume
     shutdown destroyClient cleanup processExit terminate suspend
     setSuspended setDownloads setStreamErrorLogged setPlayerProc serving
     emit count always settle nth_error removeNth app
     video server client playerProc progressInterval pollInterval
     streamErrorLogged downloads effects exitStatus suspended at_ exitCode
     andb orb negb] in *.

Ltac case_var :=
  match goal with
  | |- context [match ?x with _ => _ end] => is_var x; destruct x
  end.

Ltac case_call :=
  match goal with
  | |- context [find ?p ?l] => destruct (find p l) eqn:?
  | |- context [existsb ?p ?l] => destruct (existsb p l) eqn:?
  | |- context [nth_error ?l ?i] => destruct (nth_error l i) eqn:?
  | |- context [JsString.includes ?a ?b] => destruct (JsString.includes a b) eqn:?
  | |- context [rmFails ?a ?b] => destruct (rmFails a b) eqn:?
  end.

Ltac cases := repeat (first [case_var | case_call]; cbv beta iota).

(** One more event: what it adds to the effects. *)
Lemma dispatch_effects (w : world) (ev : event) :
  let w' := dispatch w ev in
  count isShuttingDown w'
    = (count isShuttingDown w + if triggers w ev then 1 else 0)%nat /\
  count isServerClose w'
    = (count isServerClose w + if triggers w ev && server w then 1 else 0)%nat /\
  count isClearProgress w'
    = (count isClearProgress w
       + if triggers w ev && progressInterval w then 1 else 0)%nat /\
  (count isExit w' + gone w = count isExit w + gone w')%nat /\
  (count isStreamLine w' + flagged w = count isStreamLine w + flagged w')%nat /\
  forallb premature (effects w') = forallb premature (effects w) /\
  (server w = false -> notTorrentReady ev = true ->
   server w' = false /\ count isRespond w' = count isRespond w).
Proof.
  cbv zeta. unfold gone, flagged. open_world w.
  destruct ex; [cbn; repeat split; auto; lia |].
  destruct ev; eval_handlers; cases.
  all: cbn [filter forallb List.length
              isShuttingDown isServerClose isClearProgress isExit isStreamLine
              isRespond premature notTorrentReady];
    repeat match goal with
           | H : JsString.includes _ _ = _ |- _ => rewrite H; clear H
           end;
    rewrite ?andb_true_r;
    repeat split; try lia; try congruence; try (intros; discriminate).
Qed.

Lemma run_cons (w : world) (ev : event) (evs : list event) :
  run w (ev :: evs) = run (dispatch w ev) evs.
Proof. reflexivity. Qed.

Lemma dispatch_gone (w : world) (ev : event) :
  exitStatus w <> None -> dispatch w ev = w.
Proof. unfold dispatch. destruct (exitStatus w); congruence. Qed.

Lemma run_triggered (c : world -> bool) (p : effect -> bool) :
  (forall w ev, count p (dispatch w ev)
                = (count p w + if triggers w ev && c w then 1 else 0)%nat) ->
  forall evs w, count p (run w evs) = (count p w + triggered c w evs)%nat.
Proof.
  intros step. induction evs as [| ev evs IH]; intros w.
  - cbn. lia.
  - rewrite run_cons, IH, step. cbn [triggered]. lia.
Qed.

Lemma run_invariants (evs : list event) :
  forall w,
    let w' := run w evs in
    (count isExit w' + gone w = count isExit w + gone w')%nat /\
    (count isStreamLine w' + flagged w = count isStreamLine w + flagged w')%nat /\
    forallb premature (effects w') = forallb premature (effects w).
Proof.
  induction evs as [| ev evs IH]; intros w; cbv zeta.
  - cbn. repeat split; lia.
  - rewrite run_cons.
    destruct (IH (dispatch w ev)) as (E1 & E2 & E3).
    destruct (dispatch_effects w ev) as (_ & _ & _ & D1 & D2 & D3 & _).
    repeat split; [lia | lia | congruence].
Qed.

Lemma run_no_server (evs : list event) :
  forall w, server w = false -> forallb notTorrentReady evs = true ->
  server (run w evs) = false /\ count isRespond (run w evs) = count isRespond w.
Proof.
  induction evs as [| ev evs IH]; intros w Hs Hevs; [split; [exact Hs | reflexivity] |].
  cbn [forallb] in Hevs. apply andb_prop in Hevs as [Hev Hevs].
  destruct (dispatch_effects w ev) as (_ & _ & _ & _ & _ & _ & D).
  destruct (D Hs Hev) as [Hs' Hr].
  rewrite run_cons. destruct (IH _ Hs' Hevs) as [A B].
  split; [exact A | congruence].
Qed.

(** A call of [shutdown] with nothing else in flight, resumed until it
    ends: the process exits with the code passed in, and the download
    directory has lost the entries that could be removed. *)
Lemma shutdown_settles (w : world) (code : Z) :
  exitStatus w = None -> suspended w = [] ->
  let w' := settle 4 (shutdown code w) in
  exitStatus w' = Some code /\
  downloads w'
    = match downloads w with
      | Directory es => Directory (rmAll (map ename es) es)
      | other => other
      end /\
  count isCleanupError w'
    = (count isCleanupError w
       + match downloads w with
         | Absent | Blocked => 0
         | NotADirectory => 1
         | Directory es => if rmFails (map ename es) es then 1 else 0
         end)%nat.
Proof.
  intros Hex Hsus. open_world w. cbn in Hex, Hsus. subst ex sus.
  destruct sv, cl, pi, po, dl as [| | | [| e es]]; eval_settle; cases.
  all: cbn [filter List.length isCleanupError]; repeat split; try lia.
  all: match goal with H : rmFails _ [] = true |- _ => discriminate H end.
Qed.

(** Once the process is gone nothing changes any more. *)
Lemma run_gone (evs : list event) (w : world) :
  exitStatus w <> None -> run w evs = w.
Proof.
  intros H. induction evs as [| ev evs IH]; [reflexivity |].
  rewrite run_cons, dispatch_gone by exact H. exact IH.
Qed.

Lemma mem_In (s : string) (l : list string) : In s l -> mem s l = true.
Proof.
  intros H. unfold mem. apply existsb_exists. exists s.
  split; [exact H | apply String.eqb_refl].
Qed.

(** With no busy entry, every entry that was read is removed. *)
Lemma rmAll_removes (names : list string) (es : list entry) :
  forallb (fun e => negb (busy e)) es = true ->
  incl (map ename es) names ->
  rmAll names es = [] /\ rmFails names es = false.
Proof.
  intros Hb Hin.
  assert (F : rmFails names es = false).
  { unfold rmFails. clear Hin. induction es as [| e es IH]; [reflexivity |].
    cbn [forallb] in Hb. apply andb_prop in Hb as [He Hb].
    apply negb_true_iff in He. cbn [existsb]. now rewrite He, (IH Hb). }
  split; [| exact F]. unfold rmAll. rewrite F. clear F Hb.
  induction es as [| e es IH]; [reflexivity |].
  assert (Hm : mem (ename e) names = true)
    by (apply mem_In, Hin; left; reflexivity).
  cbn [filter]. rewrite Hm. cbn [negb]. apply IH.
  intros x Hx. apply Hin. right. exact Hx.
Qed.


Lemma shutdown_alive (code : Z) (w : world) :
  exitStatus (shutdown code w) = exitStatus w.
Proof.
  open_world w. eval_handlers. destruct pi, po, sv, cl; reflexivity.
Qed.

(** [n] interrupts in a row, before anything resumes: [n] runs. *)
Lemma interrupts_all_run (n : nat) :
  forall w, exitStatus w = None ->
  count isShuttingDown (run w (repeat SigInt n)) = (count isShuttingDown w + n)%nat.
Proof.
  induction n as [| n IH]; intros w Hw; cbn [repeat].
  - cbn. lia.
  - rewrite run_cons, IH.
    + destruct (dispatch_effects w SigInt) as (E & _). rewrite E.
      unfold triggers. rewrite Hw. lia.
    + unfold dispatch. rewrite Hw. rewrite shutdown_alive. exact Hw.
Qed.

(** The effects of one call of [shutdown] with nothing else in flight. *)
Lemma shutdown_trace (w : world) (code : Z) :
  exitStatus w = None -> suspended w = [] ->
  effects (settle 4 (shutdown code w))
  = (rev (teardown w code) ++ effects w)%list.
Proof.
  intros Hex Hsus. open_world w. cbn in Hex, Hsus. subst ex sus.
  unfold teardown, cleanupLines.
  destruct sv, cl, pi, po, dl as [| | | [| e es]]; eval_settle; reflexivity.
Qed.

(** C1, as the claim has it, fails: the player exits and the operator
    interrupts before the first call of [shutdown] has resumed; both calls
    run the whole sequence, and only the exit happens once. *)
Lemma two_triggers_two_shutdowns :
  let w := run (boot Absent)
             (started ++ [PlayerExit (Some 0); SigInt] ++ repeat (Continue 0) 7) in
  count isShuttingDown w = 2%nat /\
  count isClearProgress w = 2%nat /\
  count isServerClose w = 2%nat /\
  count isClientDestroy w = 2%nat /\
  count isExit w = 1%nat /\
  exitStatus w = Some 0.
Proof. vm_compute. repeat split. Qed.

(** C1, amended.  [shutdown] has no guard: every trigger that fires while
    the process is alive starts a run of its own, with its own timer
    cancellation and its own [server.close].  What happens at most once is
    the end of the process, and after it every event is a no-op. *)
Theorem shutdown_runs_once_per_trigger (d : dirState) (evs : list event) :
  let w := run (boot d) evs in
  count isShuttingDown w = triggered always (boot d) evs /\
  count isServerClose w = triggered server (boot d) evs /\
  count isClearProgress w = triggered progressInterval (boot d) evs /\
  (count isExit w <= 1)%nat /\
  (forall ev, exitStatus w <> None -> dispatch w ev = w).
Proof.
  cbv zeta. repeat split.
  - apply (run_triggered always isShuttingDown). intros w ev.
    destruct (dispatch_effects w ev) as (E & _). rewrite E.
    unfold always. now rewrite andb_true_r.
  - apply (run_triggered server isServerClose). intros w ev.
    now destruct (dispatch_effects w ev) as (_ & E & _).
  - apply (run_triggered progressInterval isClearProgress). intros w ev.
    now destruct (dispatch_effects w ev) as (_ & _ & E & _).
  - destruct (run_invariants evs (boot d)) as (E & _).
    unfold gone in E. cbn [boot exitStatus count effects filter List.length] in E.
    destruct (exitStatus (run (boot d) evs)); unfold count in *; lia.
  - intros ev. apply dispatch_gone.
Qed.

(** C2, as the claim has it, fails: the player exits with code 3 and the
    process exits with status 0. *)
Lemma player_exit_code_dropped :
  let w := settle 4 (run (boot Absent) (started ++ [PlayerExit (Some 3)])) in
  exitStatus w = Some 0 /\ exitStatus w <> Some 3 /\
  In (Console (LVlcExited (Some 3))) (effects w).
Proof.
  vm_compute. repeat split; [discriminate | tauto].
Qed.

(** C2, amended.  When the player process exits, with whatever code, the
    handler prints that code and calls [shutdown(0)]: with no other
    shutdown in flight the teardown runs to its end and the process exits
    with status 0, which is final. *)
Theorem player_exit_status_zero
  (w : world) (code : option Z) (evs : list event) :
  exitStatus w = None -> suspended w = [] -> playerProc w = true ->
  let w' := run (settle 4 (dispatch w (PlayerExit code))) evs in
  exitStatus w' = Some 0 /\
  history w' = (history w ++ Console (LVlcExited code) :: teardown w 0)%list.
Proof.
  intros Hex Hsus Hp. cbv zeta. unfold dispatch. rewrite Hex, Hp.
  set (w1 := emit (Console (LVlcExited code)) w).
  destruct (shutdown_settles w1 0 Hex Hsus) as (E & _).
  rewrite run_gone by congruence. split; [exact E |].
  unfold history. rewrite (shutdown_trace w1 0 Hex Hsus).
  change (teardown w1 0) with (teardown w 0).
  change (effects w1) with (Console (LVlcExited code) :: effects w).
  rewrite rev_app_distr, rev_involutive. cbn [rev].
  now rewrite <- app_assoc.
Qed.

Lemma player_exit_status_zero_witness :
  let w := run (boot Absent) started in
  let w' := run (settle 4 (dispatch w (PlayerExit (Some 3))))
                [SigInt; Continue 0] in
  exitStatus w' = Some 0 /\
  history w' = (history w ++ Console (LVlcExited (Some 3)) :: teardown w 0)%list.
Proof.
  apply (player_exit_status_zero (run (boot Absent) started) (Some 3)
           [SigInt; Continue 0]); reflexivity.
Defined.

(** C3, as the claim has it, fails: the directory made at startup is
    emptied by the shutdown and stays on disk. *)
Lemma scratch_directory_survives :
  let w := settle 4 (run (boot Absent) (started ++ [SigInt])) in
  exitStatus w = Some 0 /\ downloads w = Directory [] /\ downloads w <> Absent.
Proof. vm_compute. repeat split. discriminate. Qed.

(** The invariant behind the amended claim, kept by every event that
    does not write to the directory. *)
Section Cleaning.

Variable d : dirState.
Variables errors exits : nat.
Hypothesis d_tidy : tidy d = true.

Lemma shutdown_cleaning (code : Z) (w : world) :
  exitStatus w = None ->
  cleaning d errors exits w -> cleaning d errors exits (shutdown code w).
Proof.
  unfold cleaning. open_world w. eval_handlers. intros -> (He & Ha & Hb).
  assert (Hp : List.length (filter isProcessExit effs) = exits).
  { destruct (Nat.eq_dec (List.length (filter isProcessExit effs)) exits) as [E | E];
      [exact E | destruct (Hb E) as [_ F]; contradiction F; reflexivity]. }
  destruct (Ha Hp) as [Hd Hf].
  destruct pi, po, sv, cl; cbv beta iota;
    cbn [filter List.length isCleanupError isProcessExit];
    (split; [exact He |]); (split; [| intros F; contradiction F; exact Hp]);
    intros _; (split; [exact Hd |]);
    apply Forall_app; (split; [exact Hf |]); repeat constructor.
Qed.

Lemma resume_cleaning (f : frame) (l : list frame) (w : world) :
  exitStatus w = None ->
  count isCleanupError w = errors -> count isProcessExit w = exits ->
  downloads w = d -> Forall (frameReads d) l -> frameReads d f ->
  cleaning d errors exits (resume f (setSuspended l w)).
Proof.
  unfold cleaning, frameReads. open_world w. destruct f as [pt code].
  eval_handlers. intros -> He Hp Hd Hl Hf. subst dl.
  destruct pt as [| | | names].
  - destruct cl; cbv beta iota;
      cbn [filter List.length isCleanupError isProcessExit];
      (split; [exact He |]); (split; [| intros F; contradiction F; exact Hp]);
      intros _; (split; [reflexivity |]);
      apply Forall_app; (split; [exact Hl |]); repeat constructor.
  - cbv beta iota. split; [exact He |].
    split; [| intros F; contradiction F; exact Hp].
    intros _. split; [reflexivity |].
    apply Forall_app. split; [exact Hl |]. repeat constructor.
  - destruct d as [| | | [| e es]]; cbv beta iota; try discriminate d_tidy;
      cbn [filter List.length isCleanupError isProcessExit cleaned].
    + split; [exact He |]. split; [intros F; lia |]. intros _. split; [reflexivity | discriminate].
    + split; [exact He |]. split; [intros F; lia |]. intros _. split; [reflexivity | discriminate].
    + split; [exact He |]. split; [intros F; lia |]. intros _. split; [reflexivity | discriminate].
    + split; [exact He |]. split; [| intros F; contradiction F; exact Hp].
      intros _. split; [reflexivity |].
      apply Forall_app. split; [exact Hl |]. repeat constructor.
  - cbv beta iota in Hf. destruct d as [| | | es]; try contradiction. subst names.
    cbn [tidy] in d_tidy.
    destruct (rmAll_removes (map ename es) es d_tidy (incl_refl _)) as [A B].
    cbv beta iota. rewrite A, B.
    cbn [filter List.length isCleanupError isProcessExit cleaned].
    split; [exact He |]. split; [intros F; lia |].
    intros _. split; [reflexivity | discriminate].
Qed.

Lemma dispatch_cleaning (w : world) (ev : event) :
  noWrite ev = true ->
  cleaning d errors exits w -> cleaning d errors exits (dispatch w ev).
Proof.
  intros Hev Hw. unfold dispatch. destruct (exitStatus w) eqn:Hex; [exact Hw |].
  assert (Hp : count isProcessExit w = exits).
  { destruct Hw as (_ & _ & Hb).
    destruct (Nat.eq_dec (count isProcessExit w) exits) as [E | E];
      [exact E | destruct (Hb E) as [_ F]; contradiction F; exact Hex]. }
  assert (crash : cleaning d errors exits (terminate UncaughtException 1 w)).
  { destruct Hw as (He & Ha & _). destruct (Ha Hp) as [Hd _].
    split; [exact He |]. split; [| intros F; contradiction F; exact Hp].
    intros _. split; [exact Hd | constructor]. }
  destruct ev; try exact Hw; try discriminate Hev.
  - apply shutdown_cleaning; [exact Hex | exact Hw].
  - unfold onTorrent.
    destruct (find (fun f => isVideo (name f)) files); [exact Hw |].
    assert (S : cleaning d errors exits
                  (shutdown 1 (emit (Console LNoVideo) (emit (Console LTorrent) w))))
      by (apply shutdown_cleaning; [exact Hex | exact Hw]).
    destruct escapes; [| exact S].
    assert (A : exitStatus (shutdown 1 (emit (Console LNoVideo)
                                         (emit (Console LTorrent) w))) = None)
      by (rewrite shutdown_alive; exact Hex).
    set (w1 := shutdown 1 _) in *.
    destruct S as (He & Ha & Hb).
    assert (Hp1 : count isProcessExit w1 = exits).
    { destruct (Nat.eq_dec (count isProcessExit w1) exits) as [E | E];
        [exact E | destruct (Hb E) as [_ F]; contradiction F; exact A]. }
    destruct (Ha Hp1) as [Hd _].
    split; [exact He |]. split; [| intros F; contradiction F; exact Hp1].
    intros _. split; [exact Hd | constructor].
  - destruct (server w); [| exact Hw]. unfold launchPlayer.
    destruct vlcFound; exact Hw.
  - destruct (video w); [| exact Hw]. destruct (server w); exact Hw.
  - unfold logStreamError.
    destruct (negb (streamErrorLogged w) && JsString.includes "prematurely" msg);
      exact Hw.
  - destruct (progressInterval w && negb (existsb isClearProgress (effects w)));
      exact Hw.
  - destruct (playerProc w); [| exact Hw].
    apply shutdown_cleaning; [exact Hex | exact Hw].
  - destruct err; exact Hw.
  - apply shutdown_cleaning; [exact Hex | exact Hw].
  - destruct (nth_error (suspended w) i) as [f |] eqn:Hn; [| exact Hw].
    destruct Hw as (He & Ha & _). destruct (Ha Hp) as [Hd Hf].
    apply resume_cleaning; try assumption.
    + clear - Hf Hn. revert i Hn. induction Hf as [| a l Pa Pl IH]; intros i Hn;
        [destruct i; discriminate |].
      destruct i as [| i]; cbn [nth_error removeNth] in *; [exact Pl |].
      constructor; [exact Pa | exact (IH i Hn)].
    + apply nth_error_In in Hn. rewrite Forall_forall in Hf. exact (Hf f Hn).
  - destruct (server w); [exact crash | exact Hw].
  - destruct (existsb isSpawn (effects w)); [exact crash | exact Hw].
Qed.

Lemma run_cleaning (evs : list event) :
  forall w, forallb noWrite evs = true ->
  cleaning d errors exits w -> cleaning d errors exits (run w evs).
Proof.
  induction evs as [| ev evs IH]; intros w Hevs Hw; [exact Hw |].
  cbn [forallb] in Hevs. apply andb_prop in Hevs as [Hev Hevs].
  rewrite run_cons. apply IH; [exact Hevs |].
  apply dispatch_cleaning; assumption.
Qed.

End Cleaning.

(** C3, amended.  A shutdown deletes the entries of the download
    directory, not the directory.  Take a moment with no shutdown in
    flight, a directory whose entries can all be removed, and any run from
    there in which nothing is written to the directory: once a call of
    [shutdown] has reached [process.exit] the directory is still on disk
    and empty.  A directory that is absent stays absent.  No cleanup
    error is printed. *)
Theorem scratch_directory_emptied (w : world) (evs : list event) :
  exitStatus w = None -> suspended w = [] ->
  tidy (downloads w) = true -> forallb noWrite evs = true ->
  let w' := run w evs in
  count isCleanupError w' = count isCleanupError w /\
  (count isProcessExit w' <> count isProcessExit w ->
   (forall es, downloads w = Directory es -> downloads w' = Directory []) /\
   (downloads w = Absent -> downloads w' = Absent) /\
   (downloads w = Blocked -> downloads w' = Blocked)).
Proof.
  intros Hex Hsus Ht Hevs. cbv zeta.
  assert (I : cleaning (downloads w) (count isCleanupError w)
                (count isProcessExit w) w).
  { split; [reflexivity |]. split; [| intros F; contradiction F; reflexivity].
    intros _. split; [reflexivity |]. rewrite Hsus. constructor. }
  destruct (run_cleaning (downloads w) _ _ Ht evs w Hevs I) as (E & _ & B).
  split; [exact E |]. intros Hp. destruct (B Hp) as [D _].
  repeat split.
  - intros es He. rewrite D, He. reflexivity.
  - intros He. rewrite D, He. reflexivity.
  - intros He. rewrite D, He. reflexivity.
Qed.

Lemma scratch_directory_emptied_witness :
  let w := run (boot Absent) started in
  let w' := run w [SigInt; Request (get None); PlayerExit None;
                   Continue 1; Continue 0; Continue 0; Continue 0;
                   Continue 1; Continue 0; Continue 0] in
  count isProcessExit w' <> count isProcessExit w /\
  downloads w = Directory [{| ename := "movie.mkv"; busy := false; slow := false |}] /\
  downloads w' = Directory [].
Proof.
  cbv zeta. split; [vm_compute; discriminate |]. split; [reflexivity |].
  refine (proj1 (proj2 (scratch_directory_emptied (run (boot Absent) started)
           [SigInt; Request (get None); PlayerExit None;
            Continue 1; Continue 0; Continue 0; Continue 0;
            Continue 1; Continue 0; Continue 0]
           eq_refl eq_refl eq_refl eq_refl) _) _ eq_refl).
  vm_compute. discriminate.
Defined.

(** A file written between [readdir] and the removals is not removed,
    though [Cleaned] is printed. *)
Example late_write_survives :
  let w := run (boot Absent)
             [FileWritten {| ename := "a.part"; busy := false; slow := false |};
              SigInt; Continue 0; Continue 0;
              FileWritten {| ename := "late.part"; busy := false; slow := false |};
              Continue 0] in
  exitStatus w = Some 0 /\
  count isCleaned w = 1%nat /\
  downloads w = Directory [{| ename := "late.part"; busy := false; slow := false |}].
Proof. vm_compute. repeat split. Qed.

(** C8, as the claim has it, fails: a read error that is not a
    cancellation leaves no trace, however often it happens. *)
Lemma io_failure_never_logged :
  let w0 := run (boot Absent) started in
  let w := run w0 [StreamError "EIO: i/o error, read";
                   StreamError "EIO: i/o error, read"] in
  w = w0 /\ count isStreamLine w = 0%nat.
Proof. vm_compute. split; reflexivity. Qed.

(** C8, amended.  Stream errors share one flag and one category is
    logged: an error whose message contains [prematurely] is printed the
    first time and never again; any other stream error is dropped without
    a trace.  No stream error ends the process or starts a shutdown. *)
Theorem stream_errors_logged_once (d : dirState) (evs : list event) (msg : string) :
  let w := run (boot d) evs in
  let w' := dispatch w (StreamError msg) in
  (count isStreamLine w <= 1)%nat /\
  forallb premature (effects w) = true /\
  (exitStatus w = None -> JsString.includes "prematurely" msg = true ->
   count isStreamLine w' = 1%nat /\ streamErrorLogged w' = true) /\
  (JsString.includes "prematurely" msg = false -> w' = w) /\
  exitStatus w' = exitStatus w /\ suspended w' = suspended w.
Proof.
  cbv zeta.
  destruct (run_invariants evs (boot d)) as (_ & E & P).
  unfold flagged in E.
  cbn [boot streamErrorLogged count effects filter List.length forallb] in E, P.
  set (w := run (boot d) evs) in *.
  split; [destruct (streamErrorLogged w); lia |].
  split; [exact P |].
  unfold dispatch, logStreamError, count in *.
  destruct (exitStatus w) eqn:X.
  - repeat split; try reflexivity; intros; congruence.
  - destruct (streamErrorLogged w) eqn:F; cbn [negb andb].
    + repeat split; try reflexivity; try assumption; intros; lia.
    + destruct (JsString.includes "prematurely" msg) eqn:I.
      * cbn [setStreamErrorLogged emit effects streamErrorLogged exitStatus
             suspended filter isStreamLine List.length].
        repeat split; try assumption; try (intros; congruence). lia.
      * repeat split; try assumption; intros; congruence.
Qed.



Example video_member_selected :
  video (run (boot Absent) [TorrentReady sampleFiles false])
  = Some {| name := "movie.mkv"; length := 5000000 |}.
Proof. reflexivity. Qed.

Example extension_test :
  isVideo "MOVIE.MKV" = true /\ isVideo "clip.webm" = true /\
  isVideo "movie.mkv.txt" = false /\ isVideo "mp4" = false.
Proof. repeat split. Qed.

End LifecycleFacts.

(* ================================================================== *)
(** ** More on the Range header *)

Module RangeFacts.

Import Http JsFacts HttpFacts.

(** X1.  Every request falls in one of three classes.  Anything but a
    GET gets a bare 405: no header, no body.  A GET gets 200 or 206, 206
    exactly when the Range header is a non-empty text, and in both cases
    Accept-Ranges: bytes and a streamed body. *)
Theorem handler_classes (video : file) (req : request) :
  let res := handler video req in
  (method req <> "GET" -> res = bare405) /\
  (method req = "GET" ->
   (statusCode res = Some 200 \/ statusCode res = Some 206) /\
   (statusCode res = Some 206 <-> JsString.truthy (range req) = true) /\
   getHeader "Accept-Ranges" (headers res) = Some (HStr "bytes") /\
   piped res <> None /\ ended res = false).
Proof.
  cbv zeta. destruct req as [m r]. cbn [method range]. split.
  - intros H. unfold handler. cbn [method].
    destruct (String.eqb_spec m "GET") as [E | _]; [contradiction | reflexivity].
  - intros ->. fold (get r). destruct (JsString.truthy r) eqn:T.
    + destruct r as [hdr |]; [| discriminate].
      rewrite handler_partial by (intros ->; discriminate). cbv zeta.
      repeat split; try (right; reflexivity); try discriminate.
    + rewrite handler_full by exact T.
      repeat split; try (left; reflexivity); try discriminate.
Qed.

Lemma handler_classes_witness :
  handler {| name := "movie.mkv"; length := 100 |}
          {| method := "HEAD"; range := Some "bytes=0-9" |} = bare405.
Proof.
  apply (handler_classes {| name := "movie.mkv"; length := 100 |}
           {| method := "HEAD"; range := Some "bytes=0-9" |}).
  discriminate.
Defined.

(** Reading digits from the first character on is reading them from 0. *)
Lemma readDigits_start (s : string) :
  allDigits s = true -> s <> "" ->
  readDigits s None = readDigits s (Some 0).
Proof.
  intros Hd Hne. destruct s as [| c s]; [congruence |].
  cbn [allDigits] in Hd. cbn [readDigits].
  destruct (digitValue c); [reflexivity | discriminate].
Qed.

(** [parseInt] reads a decimal and ignores what follows it. *)
Lemma parseInt10_decimal_then (n : Z) (c : ascii) (rest : string) :
  0 <= n -> digitValue c = None ->
  parseInt10 (decimal n ++ String c rest) = round53 n.
Proof.
  intros Hn Hc.
  pose proof (decimal_allDigits n Hn) as Hd.
  pose proof (decimal_nonempty n) as Hne.
  pose proof (readDigits_decimal n (String c rest) Hn) as Hr.
  cbn [readDigits] in Hr. rewrite Hc in Hr.
  destruct (decimal n) as [| d ds] eqn:E; [congruence |].
  cbn [allDigits] in Hd. destruct (digitValue d) as [dv |] eqn:Hdv; [| discriminate].
  destruct (digit_plain d dv Hdv) as (Hws & Hm & Hp & _).
  cbn [append]. rewrite parseInt10_unsigned by assumption.
  cbn [append] in Hr. cbn [readDigits] in Hr |- *. rewrite Hdv in Hr |- *.
  rewrite Hr. f_equal. lia.
Qed.

Lemma split_nonempty (sep : ascii) (s : string) : JsString.split sep s <> [].
Proof.
  destruct s as [| c s]; cbn [JsString.split]; [discriminate |].
  destruct (Ascii.eqb c sep); [discriminate |].
  destruct (JsString.split sep s); discriminate.
Qed.

(** The first piece of a split starts with the digits in front. *)
Lemma split_digits_head (s rest : string) :
  allDigits s = true ->
  JsString.split "-" (s ++ rest)
  = match JsString.split "-" rest with
    | h :: t => (s ++ h) :: t
    | [] => []
    end.
Proof.
  induction s as [| c s IH]; intros H.
  - cbn [append]. destruct (JsString.split "-" rest); reflexivity.
  - cbn [allDigits] in H. destruct (digitValue c) as [d |] eqn:Hc; [| discriminate].
    destruct (digit_plain c d Hc) as (_ & _ & _ & Hsep).
    cbn [append JsString.split]. rewrite Hsep, (IH H).
    pose proof (split_nonempty "-" rest).
    destruct (JsString.split "-" rest); [congruence | reflexivity].
Qed.

(** X2.  Lines 86-88 undo [rangeHeader] for bounds below 2^53, in the
    file or not, in order or not. *)
Theorem parseRange_round_trip (start size : Z) (oend : option Z) :
  0 <= start < twoTo53 ->
  match oend with
  | Some e => 0 <= e < twoTo53
  | None => 0 <= size <= twoTo53
  end ->
  parseRange (rangeHeader start oend) (Num size)
  = (Num start, Num match oend with Some e => e | None => size - 1 end).
Proof. apply parseRange_rangeHeader. Qed.

Lemma parseRange_round_trip_witness :
  parseRange (rangeHeader 700 (Some 20)) (Num 100) = (Num 700, Num 20).
Proof.
  exact (parseRange_round_trip 700 100 (Some 20)
           ltac:(unfold twoTo53; lia) ltac:(unfold twoTo53; cbn; lia)).
Defined.

Lemma parseRange_list (a b : Z) (more : string) (size : number) :
  0 <= a < twoTo53 -> 0 <= b < twoTo53 ->
  parseRange (rangeHeader a (Some b) ++ "," ++ more) size = (Num a, Num b).
Proof.
  intros Ha Hb. unfold parseRange, rangeHeader.
  change (JsString.replace "bytes=" ""
            (("bytes=" ++ decimal a ++ "-" ++ decimal b) ++ "," ++ more))
    with ((decimal a ++ String "-" (decimal b)) ++ String "," more).
  rewrite append_assoc. cbn [append].
  rewrite split_digits_dash by (apply decimal_allDigits; lia).
  rewrite split_digits_head by (apply decimal_allDigits; lia).
  cbn [JsString.split]. change (Ascii.eqb "," "-") with false. cbv iota.
  pose proof (split_nonempty "-" more) as Hne.
  destruct (JsString.split "-" more) as [| h t]; [congruence |].
  cbn [nth_error].
  assert (T : JsString.truthy (Some (decimal b ++ String "," h)) = true).
  { pose proof (decimal_nonempty b). destruct (decimal b); [congruence | reflexivity]. }
  rewrite T, parseInt10_decimal, parseInt10_decimal_then
    by (assumption || reflexivity || lia).
  rewrite round53_small by lia. reflexivity.
Qed.

(** X3.  A list of ranges [bytes=a-b,...] with bounds below 2^53: only
    the first range is read, and it is served as a single 206 part,
    whatever follows the comma. *)
Theorem first_range_only (video : file) (a b : Z) (more : string) :
  0 <= a < twoTo53 -> 0 <= b < twoTo53 ->
  let res := handler video (get (Some (rangeHeader a (Some b) ++ "," ++ more))) in
  statusCode res = Some 206 /\
  piped res = Some (Slice (Num a) (Num b)) /\
  getHeader "Content-Range" (headers res)
    = Some (HStr ("bytes " ++ decimal a ++ "-" ++ decimal b ++ "/"
                    ++ toString (Num (length video)))) /\
  getHeader "Content-Length" (headers res) = Some (HNum (Num (b - a + 1))).
Proof.
  intros Ha Hb. cbv zeta.
  rewrite handler_partial by discriminate. cbv zeta.
  rewrite parseRange_list by assumption. cbn [fst snd].
  rewrite sub_exact, add_exact by lia.
  rewrite !toString_nonneg by assumption. repeat split.
Qed.

Lemma first_range_only_witness :
  piped (handler {| name := "movie.mkv"; length := 1000 |}
                 (get (Some "bytes=0-99,200-299")))
  = Some (Slice (Num 0) (Num 99)).
Proof.
  exact (proj1 (proj2 (first_range_only {| name := "movie.mkv"; length := 1000 |}
                         0 99 "200-299" ltac:(unfold twoTo53; lia)
                         ltac:(unfold twoTo53; lia)))).
Defined.

(** X4.  A suffix range [bytes=-n], the last [n] bytes in HTTP, is read
    as a range with no start that ends at [n], for [n] below 2^53. *)
Theorem suffix_range_unsupported (video : file) (n : Z) :
  0 <= n < twoTo53 ->
  let res := handler video (get (Some ("bytes=-" ++ decimal n))) in
  statusCode res = Some 206 /\
  piped res = Some (Slice NaN (Num n)) /\
  getHeader "Content-Range" (headers res)
    = Some (HStr ("bytes NaN-" ++ decimal n ++ "/" ++ toString (Num (length video)))) /\
  getHeader "Content-Length" (headers res) = Some (HNum NaN).
Proof.
  intros Hn. cbv zeta.
  rewrite handler_partial by discriminate. cbv zeta.
  assert (P : parseRange ("bytes=-" ++ decimal n) (Num (length video)) = (NaN, Num n)).
  { unfold parseRange.
    change (JsString.replace "bytes=" "" ("bytes=-" ++ decimal n))
      with (String "-" (decimal n)).
    cbn [JsString.split]. change (Ascii.eqb "-" "-") with true. cbv iota.
    rewrite split_allDigits by (apply decimal_allDigits; lia).
    cbn [nth_error].
    assert (T : JsString.truthy (Some (decimal n)) = true).
    { pose proof (decimal_nonempty n). destruct (decimal n); [congruence | reflexivity]. }
    rewrite T, parseInt10_decimal by exact Hn. reflexivity. }
  rewrite P. cbn [fst snd add sub].
  rewrite toString_nonneg by exact Hn. repeat split.
Qed.

Lemma suffix_range_unsupported_witness :
  piped (handler {| name := "movie.mkv"; length := 1000 |}
                 (get (Some "bytes=-500")))
  = Some (Slice NaN (Num 500)).
Proof.
  exact (proj1 (proj2 (suffix_range_unsupported
                         {| name := "movie.mkv"; length := 1000 |} 500
                         ltac:(unfold twoTo53; lia)))).
Defined.

Lemma replace_noB (s : string) :
  JsString.noB s = true -> JsString.replace "bytes=" "" s = s.
Proof.
  induction s as [| c s IH]; intros H; [reflexivity |].
  cbn [JsString.noB] in H. apply andb_prop in H as [Hc Hs].
  apply negb_true_iff in Hc.
  cbn [JsString.replace JsString.startsWith].
  rewrite Ascii.eqb_sym, Hc. cbn [andb]. now rewrite (IH Hs).
Qed.

Lemma noB_app (a b : string) : JsString.noB (a ++ b) = JsString.noB a && JsString.noB b.
Proof.
  induction a as [| c a IH]; cbn [append JsString.noB]; [reflexivity |].
  now rewrite IH, andb_assoc.
Qed.

Lemma allDigits_noB (s : string) : allDigits s = true -> JsString.noB s = true.
Proof.
  induction s as [| c s IH]; intros H; [reflexivity |].
  cbn [allDigits] in H. destruct (digitValue c) as [d |] eqn:Hc; [| discriminate].
  cbn [JsString.noB]. rewrite (IH H), andb_true_r.
  apply negb_true_iff, Ascii.eqb_neq. intros ->. discriminate Hc.
Qed.

(** X5.  The unit is optional: [start-end] without [bytes=] is read the same
    way. *)
Theorem range_unit_optional (a size : Z) (oend : option Z) :
  0 <= a ->
  match oend with Some e => 0 <= e | None => True end ->
  parseRange (decimal a ++ "-" ++ match oend with Some e => decimal e | None => "" end)
             (Num size)
  = parseRange (rangeHeader a oend) (Num size).
Proof.
  intros Ha He. unfold parseRange, rangeHeader.
  change (JsString.replace "bytes=" ""
            ("bytes=" ++ decimal a ++ "-" ++
             match oend with Some e => decimal e | None => "" end))
    with (decimal a ++ "-" ++ match oend with Some e => decimal e | None => "" end).
  rewrite replace_noB; [reflexivity |].
  rewrite noB_app, allDigits_noB by (apply decimal_allDigits; exact Ha).
  cbn [append JsString.noB andb]. change (negb (Ascii.eqb "-" "b")) with true.
  cbn [andb].
  destruct oend as [e |]; [apply allDigits_noB, decimal_allDigits; exact He | reflexivity].
Qed.

Lemma range_unit_optional_witness :
  parseRange "10-19" (Num 100) = parseRange "bytes=10-19" (Num 100).
Proof.
  exact (range_unit_optional 10 100 (Some 19) ltac:(lia) ltac:(cbn; lia)).
Defined.

End RangeFacts.

(* ================================================================== *)
(** ** The choice of the video member *)

Module SelectionFacts.

Import Http Lifecycle LifecycleFacts.

Lemma find_first (p : file -> bool) (pre post : list file) (v : file) :
  forallb (fun f => negb (p f)) pre = true -> p v = true ->
  find p (pre ++ v :: post) = Some v.
Proof.
  induction pre as [| f pre IH]; intros Hpre Hv; cbn [app find].
  - now rewrite Hv.
  - cbn [forallb] in Hpre. apply andb_prop in Hpre as [Hf Hpre].
    apply negb_true_iff in Hf. rewrite Hf. exact (IH Hpre Hv).
Qed.

(** X7.  The member streamed is the first video of the torrent, in the order
    of [t.files], whatever comes after it.  The callback then creates the
    server, calls [listen] and starts the progress timer, once each, and
    calls no [shutdown]. *)
Theorem first_video_is_selected
  (w : world) (pre post : list file) (v : file) (escapes : bool) :
  exitStatus w = None ->
  forallb (fun f => negb (isVideo (name f))) pre = true ->
  isVideo (name v) = true ->
  let w' := dispatch w (TorrentReady (pre ++ v :: post) escapes) in
  video w' = Some v /\ server w' = true /\ progressInterval w' = true /\
  effects w' = Listen :: Console (LVideo (name v)) :: Console LTorrent :: effects w /\
  exitStatus w' = None /\ suspended w' = suspended w.
Proof.
  intros Hex Hpre Hv. cbv zeta. unfold dispatch, onTorrent. rewrite Hex.
  rewrite (find_first (fun f => isVideo (name f)) pre post v Hpre Hv).
  repeat split; assumption.
Qed.

Lemma first_video_is_selected_witness :
  video (dispatch (boot Absent)
           (TorrentReady
              ([{| name := "readme.txt"; length := 120 |}]
                 ++ {| name := "B.MP4"; length := 7 |}
                 :: [{| name := "a.mkv"; length := 900 |}]) false))
  = Some {| name := "B.MP4"; length := 7 |}.
Proof.
  exact (proj1 (first_video_is_selected (boot Absent)
                  [{| name := "readme.txt"; length := 120 |}]
                  [{| name := "a.mkv"; length := 900 |}]
                  {| name := "B.MP4"; length := 7 |} false
                  eq_refl eq_refl eq_refl)).
Defined.

End SelectionFacts.

(* ================================================================== *)
(** ** More on the event loop and the teardown *)

Module TeardownFacts.

Import Http Lifecycle LifecycleFacts.

Local Open Scope list_scope.

(** One more event: what it keeps. *)
Lemma dispatch_more (w : world) (ev : event) :
  let w' := dispatch w ev in
  (pollInterval w = false ->
   pollInterval w' = false /\ count isClearPoll w' = count isClearPoll w) /\
  (listenFirst (effects w) = true ->
   (server w = true -> existsb isListen (effects w) = true) ->
   listenFirst (effects w') = true /\
   (server w' = true -> existsb isListen (effects w') = true)) /\
  (noVlc ev = true -> playerProc w = false ->
   playerProc w' = false /\ count isSpawnVlc w' = count isSpawnVlc w) /\
  (triggers w ev = false -> crashes ev = false -> suspended w = [] ->
   exitStatus w' = exitStatus w /\ suspended w' = []).
Proof.
  cbv zeta. open_world w.
  destruct ex; [cbn; repeat split; tauto |].
  destruct ev; eval_handlers;
    cbn [listenFirst existsb isListen isSpawn isRespond andb orb]; cases.
  all: cbn [filter List.length isClearPoll isListen isSpawn isSpawnVlc
              isRespond noVlc crashes listenFirst existsb andb orb] in *.
  all: repeat split; intros; subst;
    repeat match goal with
           | H : _ /\ _ |- _ => destruct H
           | H : nth_error [] ?i = Some _ |- _ => destruct i; discriminate H
           | H : ?b = true |- context [?b] => rewrite H
           end;
    try reflexivity; try congruence; try lia; try tauto.
Qed.

(** X8.  [pollInterval] is declared on line 27 and assigned nowhere: it stays
    undefined in every run, and the [clearInterval] of line 191 never
    happens. *)
Theorem poll_timer_never_set (d : dirState) (evs : list event) :
  let w := run (boot d) evs in
  pollInterval w = false /\ count isClearPoll w = 0%nat.
Proof.
  cbv zeta.
  assert (G : forall evs w, pollInterval w = false ->
              pollInterval (run w evs) = false /\
              count isClearPoll (run w evs) = count isClearPoll w).
  { clear. induction evs as [| ev evs IH]; intros w Hw; [split; [exact Hw | reflexivity] |].
    rewrite run_cons.
    destruct (dispatch_more w ev) as (P & _). destruct (P Hw) as [P1 P2].
    destruct (IH _ P1) as [A B]. split; [exact A | congruence]. }
  destruct (G evs (boot d) eq_refl) as [A B]. split; [exact A | exact B].
Qed.

Lemma run_listenFirst (evs : list event) :
  forall w,
    listenFirst (effects w) = true ->
    (server w = true -> existsb isListen (effects w) = true) ->
    listenFirst (effects (run w evs)) = true.
Proof.
  induction evs as [| ev evs IH]; intros w Hw Hs; [exact Hw |].
  rewrite run_cons.
  destruct (dispatch_more w ev) as (_ & P & _).
  destruct (P Hw Hs) as [A B]. exact (IH _ A B).
Qed.

(** X9.  In the effects of every run, a player or browser is started
    only straight after the line of the [listen] callback (lines
    101-103), and that callback and every answer to a request come after
    the call of [server.listen]: [launchPlayer] runs from the callback
    and from nowhere else. *)
Theorem nothing_before_listen (d : dirState) (evs : list event) :
  listenFirst (effects (run (boot d) evs)) = true.
Proof.
  apply run_listenFirst; [reflexivity | discriminate].
Qed.

(** X10.  When VLC is not found the browser is opened and no exit watcher is
    registered: [playerProc] stays undefined, so the exit of a player
    never calls [shutdown]. *)
Theorem browser_fallback_has_no_exit_watcher
  (d : dirState) (evs : list event) (code : option Z) :
  forallb noVlc evs = true ->
  let w := run (boot d) evs in
  playerProc w = false /\ count isSpawnVlc w = 0%nat /\
  triggers w (PlayerExit code) = false /\
  dispatch w (PlayerExit code) = w.
Proof.
  intros Hevs. cbv zeta.
  assert (G : forall evs w, forallb noVlc evs = true -> playerProc w = false ->
              playerProc (run w evs) = false /\
              count isSpawnVlc (run w evs) = count isSpawnVlc w).
  { clear. induction evs as [| ev evs IH]; intros w Hevs Hw;
      [split; [exact Hw | reflexivity] |].
    cbn [forallb] in Hevs. apply andb_prop in Hevs as [Hev Hevs].
    rewrite run_cons.
    destruct (dispatch_more w ev) as (_ & _ & P & _).
    destruct (P Hev Hw) as [P1 P2].
    destruct (IH _ Hevs P1) as [A B]. split; [exact A | congruence]. }
  destruct (G evs (boot d) Hevs eq_refl) as [A B].
  split; [exact A |]. split; [exact B |].
  unfold triggers, dispatch. rewrite A.
  destruct (exitStatus (run (boot d) evs)); split; reflexivity.
Qed.

Lemma browser_fallback_has_no_exit_watcher_witness :
  let w := run (boot Absent) [TorrentReady sampleFiles false; Listening false] in
  dispatch w (PlayerExit (Some 0)) = w.
Proof.
  cbv zeta.
  exact (proj2 (proj2 (proj2 (browser_fallback_has_no_exit_watcher Absent
           [TorrentReady sampleFiles false; Listening false] (Some 0) eq_refl)))).
Defined.



Lemma nth_error_forallb {A : Type} (p : A -> bool) (l : list A) :
  forall i x, nth_error l i = Some x -> forallb p l = true ->
  p x = true /\ forallb p (removeNth i l) = true.
Proof.
  induction l as [| a l IH]; intros i x Hn Hp; [destruct i; discriminate |].
  cbn [forallb] in Hp. apply andb_prop in Hp as [Ha Hl].
  destruct i as [| i]; cbn [nth_error removeNth] in *.
  - injection Hn as <-. split; assumption.
  - destruct (IH i x Hn Hl) as [A1 A2]. split; [exact A1 |].
    cbn [forallb]. now rewrite Ha, A2.
Qed.

Lemma nth_error_filter {A : Type} (p : A -> bool) (l : list A) :
  forall i x, nth_error l i = Some x ->
  (List.length (filter p (removeNth i l)) + (if p x then 1 else 0)
   = List.length (filter p l))%nat.
Proof.
  induction l as [| a l IH]; intros i x Hn; [destruct i; discriminate |].
  destruct i as [| i]; cbn [nth_error removeNth filter] in *.
  - injection Hn as <-. destruct (p a); cbn [List.length]; lia.
  - specialize (IH i x Hn). destruct (p a); cbn [List.length]; lia.
Qed.

Section Codes.

Variable ok : Z -> bool.

Lemma shutdown_codes (code : Z) (w : world) :
  ok code = true -> codesIn ok w = true -> codesIn ok (shutdown code w) = true.
Proof.
  unfold codesIn. open_world w. intros Hc. eval_handlers.
  intros H. apply andb_prop in H as [H1 H2].
  destruct pi, po, sv, cl; cbv beta iota;
    rewrite forallb_app; cbn [forallb exitCode]; now rewrite H1, Hc, H2.
Qed.

Lemma resume_codes (f : frame) (l : list frame) (w : world) :
  ok (exitCode f) = true -> forallb (fun f => ok (exitCode f)) l = true ->
  exitStatus w = None ->
  codesIn ok (resume f (setSuspended l w)) = true.
Proof.
  unfold codesIn. open_world w. destruct f as [pt code]. cbn [exitCode exitStatus].
  intros Hc Hl ->. destruct pt; eval_handlers; cases;
    rewrite ?forallb_app; cbn [forallb exitCode]; now rewrite ?Hl, ?Hc.
Qed.

Lemma dispatch_codes (w : world) (ev : event) :
  ok 0 = true -> (fatal ev || crashes ev = true -> ok 1 = true) ->
  codesIn ok w = true -> codesIn ok (dispatch w ev) = true.
Proof.
  intros H0 H1 Hw. unfold dispatch. destruct (exitStatus w) eqn:Hex; [exact Hw |].
  destruct ev; try exact Hw.
  - apply shutdown_codes; [apply H1; reflexivity | exact Hw].
  - unfold onTorrent. cbn [fatal crashes] in H1. rewrite orb_false_r in H1.
    destruct (find (fun f => isVideo (name f)) files); [exact Hw |].
    specialize (H1 eq_refl).
    assert (S : codesIn ok (shutdown 1 (emit (Console LNoVideo)
                                          (emit (Console LTorrent) w))) = true)
      by (apply shutdown_codes; [exact H1 | exact Hw]).
    destruct escapes; [| exact S]. unfold codesIn. cbn. exact H1.
  - destruct (server w); [| exact Hw]. unfold launchPlayer.
    destruct vlcFound; exact Hw.
  - destruct (video w); [| exact Hw]. destruct (server w); exact Hw.
  - unfold logStreamError.
    destruct (negb (streamErrorLogged w) && JsString.includes "prematurely" msg);
      exact Hw.
  - destruct (progressInterval w && negb (existsb isClearProgress (effects w)));
      exact Hw.
  - destruct (playerProc w); [| exact Hw]. apply shutdown_codes; [exact H0 | exact Hw].
  - destruct err; exact Hw.
  - apply shutdown_codes; [exact H0 | exact Hw].
  - destruct (nth_error (suspended w) i) as [f |] eqn:Hn; [| exact Hw].
    unfold codesIn in Hw. apply andb_prop in Hw as [Hs _].
    destruct (nth_error_forallb _ _ _ _ Hn Hs) as [A B].
    apply resume_codes; assumption.
  - destruct (server w); [| exact Hw]. unfold codesIn. cbn. apply H1. reflexivity.
  - destruct (existsb isSpawn (effects w)); [| exact Hw].
    unfold codesIn. cbn. apply H1. reflexivity.
Qed.

Lemma run_codes (evs : list event) :
  forall w, ok 0 = true ->
  (existsb (fun ev => fatal ev || crashes ev) evs = true -> ok 1 = true) ->
  codesIn ok w = true -> codesIn ok (run w evs) = true.
Proof.
  induction evs as [| ev evs IH]; intros w H0 H1 Hw; [exact Hw |].
  rewrite run_cons. cbn [existsb] in H1. apply IH; [exact H0 | |].
  - intros H. apply H1. rewrite H. apply orb_true_r.
  - apply dispatch_codes; [exact H0 | | exact Hw].
    intros H. apply H1. now rewrite H.
Qed.

End Codes.

(** X12.  The exit status of the process is 0 or 1 and nothing else: no other
    value is ever passed to [shutdown]. *)
Theorem exit_status_is_0_or_1 (d : dirState) (evs : list event) :
  let s := exitStatus (run (boot d) evs) in
  s = None \/ s = Some 0 \/ s = Some 1.
Proof.
  cbv zeta.
  pose proof (run_codes (fun c => (c =? 0) || (c =? 1)) evs (boot d)
                eq_refl (fun _ => eq_refl) eq_refl) as H.
  unfold codesIn in H. apply andb_prop in H as [_ H].
  destruct (exitStatus (run (boot d) evs)) as [c |]; [| left; reflexivity].
  right. apply orb_prop in H as [H | H]; apply Z.eqb_eq in H; subst; auto.
Qed.



Lemma shutdown_destroys (code : Z) (w : world) :
  destroysBounded w -> destroysBounded (shutdown code w).
Proof.
  unfold destroysBounded, closing. open_world w. eval_handlers.
  destruct pi, po, sv, cl; cbv beta iota;
    rewrite filter_app, length_app;
    cbn [filter List.length isClose at_ isClientDestroy isShuttingDown]; lia.
Qed.

Lemma resume_destroys (f : frame) (l : list frame) (w : world) :
  (count isClientDestroy w
   + (List.length (filter isClose l) + if isClose f then 1 else 0)
   <= count isShuttingDown w)%nat ->
  destroysBounded (resume f (setSuspended l w)).
Proof.
  unfold destroysBounded, closing. open_world w. destruct f as [pt code].
  destruct pt; eval_handlers; cases; intros H;
    rewrite ?filter_app, ?length_app;
    cbn [filter List.length isClose at_ isClientDestroy isShuttingDown] in *;
    lia.
Qed.

Lemma dispatch_destroys (w : world) (ev : event) :
  destroysBounded w -> destroysBounded (dispatch w ev).
Proof.
  intros Hw. unfold dispatch. destruct (exitStatus w) eqn:Hex; [exact Hw |].
  destruct ev; try exact Hw.
  - apply shutdown_destroys. exact Hw.
  - unfold onTorrent.
    destruct (find (fun f => isVideo (name f)) files); [exact Hw |].
    assert (S : destroysBounded (shutdown 1 (emit (Console LNoVideo)
                                               (emit (Console LTorrent) w))))
      by (apply shutdown_destroys; exact Hw).
    destruct escapes; [| exact S].
    set (w1 := shutdown 1 _) in *.
    unfold destroysBounded, closing, count in *.
    cbn [terminate effects suspended filter List.length
         isClientDestroy isShuttingDown].
    lia.
  - destruct (server w); [| exact Hw]. unfold launchPlayer.
    destruct vlcFound; exact Hw.
  - destruct (video w); [| exact Hw]. destruct (server w); exact Hw.
  - unfold logStreamError.
    destruct (negb (streamErrorLogged w) && JsString.includes "prematurely" msg);
      exact Hw.
  - destruct (progressInterval w && negb (existsb isClearProgress (effects w)));
      exact Hw.
  - destruct (playerProc w); [| exact Hw]. apply shutdown_destroys. exact Hw.
  - destruct err; exact Hw.
  - apply shutdown_destroys. exact Hw.
  - destruct (nth_error (suspended w) i) as [f |] eqn:Hn; [| exact Hw].
    apply resume_destroys.
    pose proof (nth_error_filter isClose _ _ _ Hn) as E.
    unfold destroysBounded, closing in Hw. lia.
  - destruct (server w); [| exact Hw].
    unfold destroysBounded, closing, count in *.
    cbn [terminate effects suspended filter List.length
         isClientDestroy isShuttingDown].
    lia.
  - destruct (existsb isSpawn (effects w)); [| exact Hw].
    unfold destroysBounded, closing, count in *.
    cbn [terminate effects suspended filter List.length
         isClientDestroy isShuttingDown].
    lia.
Qed.

(** X14.  [client.destroy] is called at most once per call of [shutdown]. *)
Theorem one_destroy_per_shutdown (d : dirState) (evs : list event) :
  let w := run (boot d) evs in
  (count isClientDestroy w <= count isShuttingDown w)%nat.
Proof.
  cbv zeta.
  assert (G : forall evs w, destroysBounded w -> destroysBounded (run w evs)).
  { clear. induction evs as [| ev evs IH]; intros w Hw; [exact Hw |].
    rewrite run_cons. apply IH, dispatch_destroys, Hw. }
  assert (B : destroysBounded (boot d)) by (unfold destroysBounded; cbn; lia).
  specialize (G evs (boot d) B). unfold destroysBounded in G. lia.
Qed.

(** X15.  One call of [shutdown] with nothing else in flight takes its steps in
    a fixed order and each once: the line, the timers, the server, the
    client, the directory, the exit. *)
Theorem teardown_in_order (w : world) (code : Z) :
  exitStatus w = None -> suspended w = [] ->
  history (settle 4 (shutdown code w)) = history w ++ teardown w code.
Proof.
  intros Hex Hsus. unfold history.
  rewrite (shutdown_trace w code Hex Hsus), rev_app_distr, rev_involutive.
  reflexivity.
Qed.

Lemma teardown_in_order_witness :
  history (settle 4 (shutdown 0 (run (boot Absent) started)))
  = history (run (boot Absent) started)
    ++ [Console LShuttingDown; ClearInterval ProgressTimer;
        ServerClose; Console LServerStopped; ClientDestroy;
        Console LCleaned; ProcessExit 0].
Proof.
  exact (teardown_in_order (run (boot Absent) started) 0 eq_refl eq_refl).
Defined.



Lemma rmFails_busy (names : list string) (es : list entry) :
  incl (map ename es) names -> existsb busy es = true ->
  rmFails names es = true.
Proof.
  induction es as [| e es IH]; intros Hin Hb; [discriminate |].
  unfold rmFails in *. cbn [existsb] in *.
  assert (Hm : mem (ename e) names = true)
    by (apply mem_In, Hin; left; reflexivity).
  rewrite Hm, andb_true_r. destruct (busy e); [reflexivity |].
  cbn [orb] in *. apply IH; [| exact Hb].
  intros x Hx. apply Hin. right. exact Hx.
Qed.

(** X17.  An entry that cannot be removed does not stop the shutdown: one
    cleanup error is printed in place of the [Cleaned] line, the entry
    stays, and the process exits with the code it was given. *)
Theorem failed_removal_is_swallowed
  (w : world) (code : Z) (es : list entry) :
  exitStatus w = None -> suspended w = [] ->
  downloads w = Directory es -> existsb busy es = true ->
  let w' := settle 4 (shutdown code w) in
  exitStatus w' = Some code /\
  count isCleanupError w' = S (count isCleanupError w) /\
  count isCleaned w' = count isCleaned w /\
  (forall e, In e es -> busy e = true ->
             exists es', downloads w' = Directory es' /\ In e es').
Proof.
  intros Hex Hsus Hd Hb. cbv zeta.
  destruct (shutdown_settles w code Hex Hsus) as (E & D & C).
  pose proof (rmFails_busy (map ename es) es (incl_refl _) Hb) as F.
  rewrite Hd in D, C. rewrite F in C.
  split; [exact E |]. split; [lia |]. split.
  - unfold count. rewrite (shutdown_trace w code Hex Hsus).
    rewrite filter_app, length_app.
    unfold teardown, cleanupLines. rewrite Hd, F.
    destruct es as [| e0 es0]; [discriminate |].
    destruct (progressInterval w), (pollInterval w), (server w), (client w);
      reflexivity.
  - intros e He Hbe. eexists. split; [exact D |].
    unfold rmAll. rewrite F. apply filter_In. split; [exact He |].
    now rewrite Hbe.
Qed.

Lemma failed_removal_is_swallowed_witness :
  exitStatus (settle 4 (shutdown 1
     (dispatch (boot Absent) (FileWritten {| ename := "movie.mkv"; busy := true; slow := false |}))))
  = Some 1.
Proof.
  exact (proj1 (failed_removal_is_swallowed
     (dispatch (boot Absent) (FileWritten {| ename := "movie.mkv"; busy := true; slow := false |}))
     1 [{| ename := "movie.mkv"; busy := true; slow := false |}]
     eq_refl eq_refl eq_refl eq_refl)).
Defined.

(** X18.  From startup to exit: [mkdir] creates the download directory when
    it is missing and can be made, and keeps what an existing one holds;
    the shutdown then deletes every entry, those that were there before
    the program started included, and leaves the directory.  When the
    path is a file, [mkdir] fails silently and the shutdown prints one
    cleanup error.  When the directory is missing and cannot be made,
    [mkdir] fails silently as well, and the shutdown finds nothing to
    clean and prints no error. *)
Theorem startup_to_exit (d : dirState) :
  let w := settle 4 (dispatch (boot d) SigInt) in
  exitStatus w = Some 0 /\
  (d = Absent -> downloads w = Directory [] /\ count isCleanupError w = 0%nat) /\
  (forall es, d = Directory es -> forallb (fun e => negb (busy e)) es = true ->
              downloads w = Directory [] /\ count isCleanupError w = 0%nat) /\
  (d = NotADirectory ->
   downloads w = NotADirectory /\ count isCleanupError w = 1%nat) /\
  (d = Blocked -> downloads w = Blocked /\ count isCleanupError w = 0%nat).
Proof.
  cbv zeta. unfold dispatch. cbn [boot exitStatus].
  set (w1 := emit (Console LSigint) (boot d)).
  destruct (shutdown_settles w1 0 eq_refl eq_refl) as (E & D & C).
  change (downloads w1) with (mkdir d) in D, C.
  change (count isCleanupError w1) with 0%nat in C.
  split; [exact E |]. split; [| split; [| split]].
  - intros ->. split; [exact D | exact C].
  - intros es -> Hb. cbn [mkdir] in D, C.
    destruct (rmAll_removes (map ename es) es Hb (incl_refl _)) as [A B].
    rewrite A in D. rewrite B in C. split; [exact D | exact C].
  - intros ->. split; [exact D | exact C].
  - intros ->. split; [exact D | exact C].
Qed.

End TeardownFacts.

